(** * MultivariableFunctionCalculator: a shallow embedding and its properties

    The program searches integer coefficients [A], [B] for which a fixed
    polynomial family has a maximum, a minimum and a saddle at prescribed
    points.  This file embeds [get_values] and the class [FunctionCalculator]
    of [MultivariableFunctionCalculator.py].

    Modelling choices.
    - Python integers are [Z]; coordinates are rationals [Q], compared with
      [==].  sympy's [evalf] rounds the numbers of its result to 15 digits
      (53 bits); [evalf] here does not round.  Rounding changes neither the
      sign of a number nor which symbols an expression contains, so what is
      stated of an expression [evalf] returned is its structure and the
      signs of its values, never an exact value.  Exact values are stated
      of [f_x], [f_y], [f_xx], [d_xy] and [general_form], which the program
      builds without [evalf].
    - sympy expressions are the syntax trees [Expr]; [diff], [integrate]
      and [evalf] are the textbook operations on polynomials, with none of
      sympy's automatic rewriting into canonical form, so expressions are
      compared by their values.
    - a generator is the list of the items it yields; the loop of [solve]
      additionally records the candidates it examined and what was printed.
    - exceptions are values of [Exception].
    - [e != 0] on an evaluated number is read as numeric inequality. *)

From Stdlib Require Import String.
From Stdlib Require Import ZArith QArith Qfield List Bool Lia Lqa.
Import ListNotations.

Local Open Scope Z_scope.

(** ** Python builtins and itertools *)

Module Py.

(** [len(range(start, stop, step))], as CPython computes it. *)
Definition range_len (start stop step : Z) : Z :=
  if (0 <? step) && (start <? stop) then 1 + (stop - 1 - start) / step
  else if (step <? 0) && (stop <? start) then 1 + (start - 1 - stop) / (- step)
  else 0.

Definition range3 (start stop step : Z) : list Z :=
  map (fun i => start + Z.of_nat i * step)
      (seq 0 (Z.to_nat (range_len start stop step))).

Definition range (stop : Z) : list Z := range3 0 stop 1.

(** [zip] stops at the shorter argument. *)
Definition zip {S T : Type} (l : list S) (l' : list T) : list (S * T) :=
  combine l l'.

(** A 2-tuple seen as an iterable. *)
Definition items {T : Type} (p : T * T) : list T := [fst p; snd p].

Definition chain {T : Type} (iterables : list (list T)) : list T :=
  concat iterables.

(** [product(pool, repeat=2)]: the rightmost coordinate advances fastest. *)
Definition product2 {T : Type} (pool : list T) : list (T * T) :=
  flat_map (fun a => map (fun b => (a, b)) pool) pool.

End Py.

(** ** get_values *)

(** The local variable [numbers] of [get_values]. *)
Definition numbers (n : Z) : list Z :=
  Py.chain (map Py.items (Py.zip (Py.range (n + 1)) (Py.range3 (-1) (- n - 1) (-1)))
            ++ [[n]]).

Definition get_values (n : Z) : list (Z * Z) :=
  if n <? 0 then [] else Py.product2 (numbers n).

(** ** Symbolic expressions (the part of sympy the program uses) *)

(** The four symbols the constructor creates: [x], [y], [A], [B]. *)
Inductive Symbol : Type := Sx | Sy | SA | SB.

Definition Symbol_eqb (s t : Symbol) : bool :=
  match s, t with
  | Sx, Sx | Sy, Sy | SA, SA | SB, SB => true
  | _, _ => false
  end.

Inductive Expr : Type :=
| Num (q : Q)
| Sym (s : Symbol)
| Add (a b : Expr)
| Sub (a b : Expr)
| Mul (a b : Expr)
| Pow (a : Expr) (k : nat).

(** A [subs=] dictionary, written as the dict literal lists it. *)
Definition Subs : Type := list (Symbol * Q).

Fixpoint lookup (d : Subs) (s : Symbol) : option Q :=
  match d with
  | [] => None
  | (t, q) :: d' => if Symbol_eqb t s then Some q else lookup d' s
  end.

Fixpoint Qpow (q : Q) (k : nat) : Q :=
  match k with
  | O => 1%Q
  | S k' => (q * Qpow q k')%Q
  end.

(** The value of an expression under an assignment of all symbols. *)
Fixpoint eval (rho : Symbol -> Q) (e : Expr) : Q :=
  match e with
  | Num q => q
  | Sym s => rho s
  | Add a b => (eval rho a + eval rho b)%Q
  | Sub a b => (eval rho a - eval rho b)%Q
  | Mul a b => (eval rho a * eval rho b)%Q
  | Pow a k => Qpow (eval rho a) k
  end.

(** Replace the symbols the dictionary binds by their numbers. *)
Fixpoint subs (d : Subs) (e : Expr) : Expr :=
  match e with
  | Num q => Num q
  | Sym s => match lookup d s with Some q => Num q | None => Sym s end
  | Add a b => Add (subs d a) (subs d b)
  | Sub a b => Sub (subs d a) (subs d b)
  | Mul a b => Mul (subs d a) (subs d b)
  | Pow a k => Pow (subs d a) k
  end.

Definition lift2 (f : Q -> Q -> Q) (u v : option Q) : option Q :=
  match u, v with
  | Some p, Some q => Some (f p q)
  | _, _ => None
  end.

(** The number an expression denotes, when no symbol is left in it. *)
Fixpoint value (e : Expr) : option Q :=
  match e with
  | Num q => Some q
  | Sym _ => None
  | Add a b => lift2 Qplus (value a) (value b)
  | Sub a b => lift2 Qminus (value a) (value b)
  | Mul a b => lift2 Qmult (value a) (value b)
  | Pow a k => option_map (fun q => Qpow q k) (value a)
  end.

(** [e.evalf(subs=d)]: a number when every symbol of [e] is bound, else the
    expression with the bound symbols replaced.  sympy also rounds the
    numbers of the result to 15 digits, which is left out here: the result
    stands for the unrounded expression, and has its symbols and the signs
    of its values, not its exact values. *)
Definition evalf (e : Expr) (d : Subs) : Expr :=
  let e' := subs d e in
  match value e' with
  | Some q => Num q
  | None => e'
  end.

Fixpoint diff (e : Expr) (s : Symbol) : Expr :=
  match e with
  | Num _ => Num 0
  | Sym t => if Symbol_eqb t s then Num 1 else Num 0
  | Add a b => Add (diff a s) (diff b s)
  | Sub a b => Sub (diff a s) (diff b s)
  | Mul a b => Add (Mul (diff a s) b) (Mul a (diff b s))
  | Pow a k =>
      match k with
      | O => Num 0
      | S k' => Mul (Mul (Num (inject_Z (Z.of_nat k))) (Pow a k')) (diff a s)
      end
  end.

(** Polynomials in one symbol, as the list of their coefficients (lowest
    degree first); the coefficients are expressions in the other symbols. *)
Fixpoint padd (p q : list Expr) : list Expr :=
  match p, q with
  | [], _ => q
  | _, [] => p
  | a :: p', b :: q' => Add a b :: padd p' q'
  end.

Definition pscale (c : Expr) (p : list Expr) : list Expr := map (Mul c) p.

Fixpoint pmul (p q : list Expr) : list Expr :=
  match p with
  | [] => []
  | a :: p' => padd (pscale a q) (Num 0 :: pmul p' q)
  end.

Fixpoint ppow (p : list Expr) (k : nat) : list Expr :=
  match k with
  | O => [Num 1]
  | S k' => pmul p (ppow p k')
  end.

Fixpoint as_poly (e : Expr) (s : Symbol) : list Expr :=
  match e with
  | Num q => [Num q]
  | Sym t => if Symbol_eqb t s then [Num 0; Num 1] else [Sym t]
  | Add a b => padd (as_poly a s) (as_poly b s)
  | Sub a b => padd (as_poly a s) (pscale (Num (-1)) (as_poly b s))
  | Mul a b => pmul (as_poly a s) (as_poly b s)
  | Pow a k => ppow (as_poly a s) k
  end.

(** The antiderivative of [c_i * s^i], [c_(i+1) * s^(i+1)], ... term by
    term, with no constant term. *)
Fixpoint integrate_terms (s : Symbol) (i : nat) (p : list Expr) : Expr :=
  match p with
  | [] => Num 0
  | c :: p' =>
      Add (Mul (Mul c (Num (1 # Pos.of_succ_nat i))) (Pow (Sym s) (S i)))
          (integrate_terms s (S i) p')
  end.

(** [integrate(e, s)] for a polynomial integrand. *)
Definition integrate (e : Expr) (s : Symbol) : Expr :=
  integrate_terms s 0 (as_poly e s).

(** Comparisons of an evaluated expression with 0.  An ordering comparison
    of an expression that still has symbols is a relational without a truth
    value ([None]); [!=] is structural and always has one. *)
Definition Qlt_bool (p q : Q) : bool := negb (Qle_bool q p).

Definition lt0 (e : Expr) : option bool :=
  option_map (fun q => Qlt_bool q 0) (value e).

Definition gt0 (e : Expr) : option bool :=
  option_map (fun q => Qlt_bool 0 q) (value e).

Definition ne0 (e : Expr) : option bool :=
  match value e with
  | Some q => Some (negb (Qeq_bool q 0))
  | None => Some true
  end.

Inductive Exception : Type := ValueError | TypeError.

(** [all(l)]: stops at the first false element; asking an element without
    a truth value raises [TypeError]. *)
Fixpoint all (l : list (option bool)) : Exception + bool :=
  match l with
  | [] => inr true
  | None :: _ => inl TypeError
  | Some false :: _ => inr false
  | Some true :: l' => all l'
  end.

(** ** The class FunctionCalculator *)

Record FunctionCalculator : Type := {
  max_x : Q; max_y : Q;
  min_x : Q; min_y : Q;
  saddle_x : Q; saddle_y : Q;
  print_steps : bool;
  f_x : Expr; f_y : Expr;
  general_form : Expr;
  f_xx : Expr; d_xy : Expr
}.

(** The methods the constructor calls read only attributes that are already
    set; they take those as arguments. *)
Definition get_first_order_partial_derivatives (max_x min_y : Q) : Expr * Expr :=
  let f_x := Sub (Mul (Mul (Sym SA) (Sym Sx)) (Sym Sx))
                 (Mul (Mul (Sym SA) (Sym Sx)) (Num max_x)) in
  let f_y := Sub (Mul (Mul (Sym SB) (Sym Sy)) (Sym Sy))
                 (Mul (Mul (Sym SB) (Sym Sy)) (Num min_y)) in
  (f_x, f_y).

Definition get_general_form (f_x f_y : Expr) : Expr :=
  let func_x := integrate f_x Sx in
  let func_y := integrate f_y Sy in
  Add func_y func_x.

Definition get_second_partial_derivatives (f_x f_y : Expr) : Expr * Expr :=
  let f_xx := diff f_x Sx in
  let f_yy := diff f_y Sy in
  let f_xy := diff f_x Sy in
  let d_xy := Sub (Mul f_xx f_yy) (Pow f_xy 2) in
  (f_xx, d_xy).

(** [a, b = t] for a tuple [t] of numbers. *)
Definition unpack2 (t : list Q) : Exception + (Q * Q) :=
  match t with
  | [a; b] => inr (a, b)
  | _ => inl ValueError
  end.

Definition bind {E S T : Type} (m : E + S) (k : S -> E + T) : E + T :=
  match m with
  | inl e => inl e
  | inr v => k v
  end.

Notation "' p <- m ;; k" := (bind m (fun p => k))
  (at level 61, p pattern, m at next level, right associativity).

Definition __init__ (maximum minimum saddle : list Q) (print_steps : bool)
  : Exception + FunctionCalculator :=
  '(max_x, max_y) <- unpack2 maximum ;;
  '(min_x, min_y) <- unpack2 minimum ;;
  '(saddle_x, saddle_y) <- unpack2 saddle ;;
  let '(f_x, f_y) := get_first_order_partial_derivatives max_x min_y in
  let general_form := get_general_form f_x f_y in
  let '(f_xx, d_xy) := get_second_partial_derivatives f_x f_y in
  inr {| max_x := max_x; max_y := max_y;
         min_x := min_x; min_y := min_y;
         saddle_x := saddle_x; saddle_y := saddle_y;
         print_steps := print_steps;
         f_x := f_x; f_y := f_y;
         general_form := general_form;
         f_xx := f_xx; d_xy := d_xy |}.

(** What [print(DataFrame(data=data, columns=headers))] writes: the table,
    cell by cell; a formatted condition is the expression and the text
    after it. *)
Inductive Cell : Type :=
| PointCell (p : Q * Q)
| TextCell (s : string)
| CondCell (e : Expr) (rel : string).

Record DataFrame : Type := { columns : list string; data : list (list Cell) }.

(** The six expressions [evaluate_derivative_at_stationary_points] returns. *)
Record Evaluated : Type := {
  f_xx_at_max : Expr; f_xx_at_min : Expr; f_xx_at_saddle : Expr;
  d_at_max : Expr; d_at_min : Expr; d_at_saddle : Expr
}.

(** Returns what was printed and the six expressions. *)
Definition evaluate_derivative_at_stationary_points (self : FunctionCalculator)
  : list DataFrame * Evaluated :=
  let f_xx_at_max := evalf (f_xx self) [(Sx, max_x self); (Sy, max_y self)] in
  let f_xx_at_min := evalf (f_xx self) [(Sx, min_x self); (Sy, min_y self)] in
  let f_xx_at_saddle :=
    evalf (f_xx self) [(Sx, saddle_x self); (Sy, saddle_y self)] in
  let d_at_max := evalf (d_xy self) [(Sx, max_x self); (Sy, max_y self)] in
  let d_at_min := evalf (d_xy self) [(Sx, min_x self); (Sy, min_y self)] in
  let d_at_saddle :=
    evalf (d_xy self) [(Sx, saddle_x self); (Sy, saddle_y self)] in
  let stdout :=
    if print_steps self then
      let data :=
        [ [ PointCell (max_x self, max_y self); TextCell "Maximum";
            CondCell f_xx_at_max "< 0"; CondCell d_at_max "> 0" ];
          [ PointCell (min_x self, min_y self); TextCell "Minimum";
            CondCell f_xx_at_min "> 0"; CondCell d_at_min "> 0" ];
          [ PointCell (saddle_x self, saddle_y self); TextCell "Saddle";
            CondCell f_xx_at_saddle "!= 0"; CondCell d_at_saddle "< 0" ] ] in
      let headers := ["Point"; "Type"; "f_xx"; "f_xx*f_yy-f_xy^2"]%string in
      [ {| columns := headers; data := data |} ]
    else [] in
  (stdout,
   {| f_xx_at_max := f_xx_at_max; f_xx_at_min := f_xx_at_min;
      f_xx_at_saddle := f_xx_at_saddle;
      d_at_max := d_at_max; d_at_min := d_at_min; d_at_saddle := d_at_saddle |}).

(** What [solve] returns: the final function, or the message. *)
Inductive Solution : Type :=
| full_func (e : Expr)
| message (s : string).

Definition not_found : Solution := message "Solution could not be found".

(** The list [evaluated_funcs] of one iteration, for the candidate [(a, b)]. *)
Definition evaluated_funcs (self : FunctionCalculator) (ev : Evaluated)
  (a b : Z) : list (option bool) :=
  let subs_at_max :=
    [(Sx, max_x self); (Sy, max_y self); (SA, inject_Z a); (SB, inject_Z b)] in
  let subs_at_min :=
    [(Sx, min_x self); (Sy, min_y self); (SA, inject_Z a); (SB, inject_Z b)] in
  let subs_at_saddle :=
    [(Sx, saddle_x self); (Sy, saddle_y self);
     (SA, inject_Z a); (SB, inject_Z b)] in
  [ lt0 (evalf (f_xx_at_max ev) subs_at_max);
    gt0 (evalf (f_xx_at_min ev) subs_at_min);
    ne0 (evalf (f_xx_at_saddle ev) subs_at_saddle);
    gt0 (evalf (d_at_max ev) subs_at_max);
    gt0 (evalf (d_at_min ev) subs_at_min);
    lt0 (evalf (d_at_saddle ev) subs_at_saddle) ].

(** The [for ... else] loop of [solve] over the items the generator yields.
    Besides the outcome it returns the candidates whose predicates were
    evaluated, in order. *)
Fixpoint solve_loop (self : FunctionCalculator) (ev : Evaluated)
  (values : list (Z * Z)) : list (Z * Z) * (Exception + Solution) :=
  match values with
  | [] => ([], inr not_found)
  | (a, b) :: rest =>
      match all (evaluated_funcs self ev a b) with
      | inl e => ([(a, b)], inl e)
      | inr true =>
          ([(a, b)],
           inr (full_func (evalf (general_form self)
                                 [(SA, inject_Z a); (SB, inject_Z b)])))
      | inr false =>
          let '(seen, r) := solve_loop self ev rest in
          ((a, b) :: seen, r)
      end
  end.

(** One call of [solve]: what it printed, the candidates it examined, and
    what it returned or raised. *)
Record Run : Type := {
  stdout : list DataFrame;
  examined : list (Z * Z);
  outcome : Exception + Solution
}.

Definition solve (self : FunctionCalculator) (n : Z) : Run :=
  let '(out, ev) := evaluate_derivative_at_stationary_points self in
  let '(seen, r) := solve_loop self ev (get_values n) in
  {| stdout := out; examined := seen; outcome := r |}.

(** The assignment [x := px], [y := py], [A := a], [B := b]. *)
Definition env (px py a b : Q) (s : Symbol) : Q :=
  match s with Sx => px | Sy => py | SA => a | SB => b end.

(** The second derivative and the discriminant of the family with
    coefficients [a], [b], at the point [p]: every symbol replaced. *)
Definition f_xx_value (self : FunctionCalculator) (p : Q * Q) (a b : Z) : Q :=
  eval (env (fst p) (snd p) (inject_Z a) (inject_Z b)) (f_xx self).

Definition d_xy_value (self : FunctionCalculator) (p : Q * Q) (a b : Z) : Q :=
  eval (env (fst p) (snd p) (inject_Z a) (inject_Z b)) (d_xy self).

Definition maximum (self : FunctionCalculator) : Q * Q := (max_x self, max_y self).
Definition minimum (self : FunctionCalculator) : Q * Q := (min_x self, min_y self).
Definition saddle (self : FunctionCalculator) : Q * Q :=
  (saddle_x self, saddle_y self).

(** The six conditions of the second-derivative test for [(a, b)]. *)
Definition six_predicates (self : FunctionCalculator) (a b : Z) : Prop :=
  (f_xx_value self (maximum self) a b < 0
   /\ 0 < f_xx_value self (minimum self) a b
   /\ ~ f_xx_value self (saddle self) a b == 0
   /\ 0 < d_xy_value self (maximum self) a b
   /\ 0 < d_xy_value self (minimum self) a b
   /\ d_xy_value self (saddle self) a b < 0)%Q.

(** Whether the loop accepts the candidate [(a, b)]. *)
Definition accepts (self : FunctionCalculator) (c : Z * Z) : Exception + bool :=
  all (evaluated_funcs self (snd (evaluate_derivative_at_stationary_points self))
                       (fst c) (snd c)).

(** The assignment that first follows the dictionary, then [rho]. *)
Definition override (rho : Symbol -> Q) (d : Subs) (s : Symbol) : Q :=
  match lookup d s with Some q => q | None => rho s end.

(** The six conditions, as the truth values the loop computes. *)
Definition six_predicates_b (self : FunctionCalculator) (a b : Z) : bool :=
  Qlt_bool (f_xx_value self (maximum self) a b) 0
  && Qlt_bool 0 (f_xx_value self (minimum self) a b)
  && negb (Qeq_bool (f_xx_value self (saddle self) a b) 0)
  && Qlt_bool 0 (d_xy_value self (maximum self) a b)
  && Qlt_bool 0 (d_xy_value self (minimum self) a b)
  && Qlt_bool (d_xy_value self (saddle self) a b) 0.

(** The value of a coefficient list at [t]: the sum of [c_i * t^i]. *)
Fixpoint peval (rho : Symbol -> Q) (p : list Expr) (t : Q) : Q :=
  match p with
  | [] => 0%Q
  | c :: p' => (eval rho c + t * peval rho p' t)%Q
  end.

(** Whether the symbol occurs in the expression. *)
Fixpoint mentions (s : Symbol) (e : Expr) : bool :=
  match e with
  | Num _ => false
  | Sym t => Symbol_eqb t s
  | Add a b | Sub a b | Mul a b => mentions s a || mentions s b
  | Pow a _ => mentions s a
  end.

(** A coefficient list in which [s] does not occur. *)
Definition free (s : Symbol) (p : list Expr) : Prop :=
  Forall (fun c => mentions s c = false) p.

(** The sign of a rational: -1, 0 or 1. *)
Definition Qsgn (q : Q) : Z := Z.sgn (Qnum q).

(** The three conditions on the stationary points alone under which some
    candidate passes the six conditions (see [acceptance_closed_form]). *)
Definition solvable (self : FunctionCalculator) : Prop :=
  (max_x self * (2 * min_x self - max_x self) < 0
   /\ min_y self * (2 * max_y self - min_y self) < 0
   /\ 0 < max_x self * min_y self
          * ((2 * saddle_x self - max_x self) * (2 * saddle_y self - min_y self)))%Q.

(** ** example.py *)

Definition solver : Exception + FunctionCalculator :=
  __init__ [25 # 1; 15 # 1] [-5 # 1; -12 # 1] [0; 0]%Q false.

(** A caller that builds a calculator and calls [solve] on it, as example.py
    does; an exception of the constructor reaches the caller. *)
Definition construct_and_solve (maximum minimum saddle : list Q)
  (print_steps : bool) (n : Z) : Exception + Solution :=
  ' self <- __init__ maximum minimum saddle print_steps ;;
  outcome (solve self n).

(** ** The enumeration as the specification words it *)

(** Interleave element-wise, exhausting the shorter list, then draining the
    longer one. *)
Fixpoint interleave_longest (l l' : list Z) : list Z :=
  match l, l' with
  | [], _ => l'
  | _, [] => l
  | a :: t, b :: t' => a :: b :: interleave_longest t t'
  end.

(** The number sequence as the specification describes it: the draining
    interleaving of the two ranges, then [n] once more. *)
Definition spec_numbers (n : Z) : list Z :=
  interleave_longest (Py.range (n + 1)) (Py.range3 (-1) (- n - 1) (-1)) ++ [n].

(** * Properties *)

(** ** The enumeration *)

Section Enumeration.

Lemma range_len_up (n : Z) : 0 <= n -> Py.range_len 0 (n + 1) 1 = n + 1.
Proof.
  intros Hn. unfold Py.range_len.
  replace (0 <? 1) with true by reflexivity.
  replace (0 <? n + 1) with true by (symmetry; apply Z.ltb_lt; lia).
  cbn [andb]. rewrite Z.div_1_r. lia.
Qed.

Lemma range_len_down (n : Z) : 0 <= n -> Py.range_len (-1) (- n - 1) (-1) = n.
Proof.
  intros Hn. unfold Py.range_len.
  replace (0 <? -1) with false by reflexivity.
  replace (-1 <? 0) with true by reflexivity.
  cbn [andb]. destruct (- n - 1 <? -1) eqn:E.
  - apply Z.ltb_lt in E. change (- (-1)) with 1. rewrite Z.div_1_r. lia.
  - apply Z.ltb_ge in E. lia.
Qed.

Lemma range_up (n : Z) :
  0 <= n -> Py.range (n + 1) = map Z.of_nat (seq 0 (S (Z.to_nat n))).
Proof.
  intros Hn. unfold Py.range, Py.range3. rewrite range_len_up by assumption.
  replace (Z.to_nat (n + 1)) with (S (Z.to_nat n)) by lia.
  apply map_ext. intros i. lia.
Qed.

Lemma range_down (n : Z) :
  0 <= n ->
  Py.range3 (-1) (- n - 1) (-1)
  = map (fun i => - Z.of_nat i - 1) (seq 0 (Z.to_nat n)).
Proof.
  intros Hn. unfold Py.range3. rewrite range_len_down by assumption.
  apply map_ext. intros i. lia.
Qed.

Lemma zip_seq {S T : Type} (f : nat -> S) (g : nat -> T) (k a : nat) :
  Py.zip (map f (seq a (Datatypes.S k))) (map g (seq a k))
  = map (fun i => (f i, g i)) (seq a k).
Proof.
  revert a. induction k as [|k IH]; intros a.
  - reflexivity.
  - change (seq a (Datatypes.S (Datatypes.S k)))
      with (a :: seq (Datatypes.S a) (Datatypes.S k)).
    change (seq a (Datatypes.S k)) with (a :: seq (Datatypes.S a) k).
    cbn [map Py.zip combine]. f_equal. apply IH.
Qed.

Lemma chain_items {T : Type} (f g : nat -> T) (l : list nat) (tl : list (list T)) :
  Py.chain (map Py.items (map (fun i => (f i, g i)) l) ++ tl)
  = flat_map (fun i => [f i; g i]) l ++ Py.chain tl.
Proof.
  unfold Py.chain. induction l as [|i l IH]; cbn.
  - reflexivity.
  - now rewrite IH.
Qed.

(** The number sequence in closed form: 0, -1, 1, -2, ..., n-1, -n, n. *)
Lemma numbers_closed (n : Z) :
  0 <= n ->
  numbers n
  = flat_map (fun i => [Z.of_nat i; - Z.of_nat i - 1]) (seq 0 (Z.to_nat n)) ++ [n].
Proof.
  intros Hn. unfold numbers.
  rewrite range_up, range_down by assumption.
  rewrite zip_seq, chain_items. reflexivity.
Qed.

Lemma length_pairs (f g : nat -> Z) (l : list nat) :
  length (flat_map (fun i => [f i; g i]) l) = (2 * length l)%nat.
Proof.
  induction l as [|i l IH]; cbn [flat_map length app]; lia.
Qed.

Lemma length_numbers (n : Z) :
  0 <= n -> Z.of_nat (length (numbers n)) = 2 * n + 1.
Proof.
  intros Hn. rewrite numbers_closed by assumption.
  rewrite length_app, length_pairs, length_seq. cbn [length]. lia.
Qed.

Lemma length_product2 {T : Type} (l : list T) :
  length (Py.product2 l) = (length l * length l)%nat.
Proof.
  unfold Py.product2. generalize l at 1 4 as pool.
  induction l as [|a l IH]; intros pool; cbn [flat_map length].
  - reflexivity.
  - rewrite length_app, length_map, IH. lia.
Qed.

Lemma length_get_values (n : Z) :
  0 <= n -> Z.of_nat (length (get_values n)) = (2 * n + 1) ^ 2.
Proof.
  intros Hn. unfold get_values.
  replace (n <? 0) with false by (symmetry; apply Z.ltb_ge; lia).
  rewrite length_product2, Nat2Z.inj_mul, length_numbers by assumption. lia.
Qed.

(** How often [z] occurs among the interleaved pairs below [k]. *)
Lemma count_pairs (z : Z) (k : nat) :
  count_occ Z.eq_dec
    (flat_map (fun i => [Z.of_nat i; - Z.of_nat i - 1]) (seq 0 k)) z
  = if (- Z.of_nat k <=? z) && (z <? Z.of_nat k) then 1%nat else 0%nat.
Proof.
  induction k as [|k IH].
  - cbn. destruct (0 <=? z) eqn:E1, (z <? 0) eqn:E2; try reflexivity.
    apply Z.leb_le in E1. apply Z.ltb_lt in E2. lia.
  - rewrite seq_S, flat_map_app, count_occ_app, IH. cbn [flat_map app plus count_occ].
    repeat match goal with
           | |- context [Z.eq_dec ?u ?v] => destruct (Z.eq_dec u v)
           | |- context [?u <=? ?v] => destruct (Z.leb_spec u v)
           | |- context [?u <? ?v] => destruct (Z.ltb_spec u v)
           end; cbn [andb]; lia.
Qed.

Lemma count_numbers (n z : Z) :
  0 <= n ->
  count_occ Z.eq_dec (numbers n) z
  = if (- n <=? z) && (z <=? n) then 1%nat else 0%nat.
Proof.
  intros Hn. rewrite numbers_closed by assumption.
  rewrite count_occ_app, count_pairs. cbn [count_occ].
  rewrite Z2Nat.id by assumption.
  repeat match goal with
         | |- context [Z.eq_dec ?u ?v] => destruct (Z.eq_dec u v)
         | |- context [?u <=? ?v] => destruct (Z.leb_spec u v)
         | |- context [?u <? ?v] => destruct (Z.ltb_spec u v)
         end; cbn [andb]; lia.
Qed.

End Enumeration.

Section RowMajor.

Context {T : Type}.

Lemma nth_error_blocks (d : T) (l l' : list T) (r c : nat) :
  (r < length l)%nat -> (c < length l')%nat ->
  nth_error (flat_map (fun a => map (fun b => (a, b)) l') l) (r * length l' + c)
  = Some (nth r l d, nth c l' d).
Proof.
  revert r. induction l as [|a l IH]; intros r Hr Hc; cbn [length] in Hr.
  - lia.
  - cbn [flat_map]. destruct r as [|r].
    + cbn [Nat.mul Nat.add nth].
      rewrite nth_error_app1 by (rewrite length_map; exact Hc).
      rewrite nth_error_map, (nth_error_nth' l' d Hc). reflexivity.
    + rewrite nth_error_app2 by (rewrite length_map; lia).
      rewrite length_map.
      replace (S r * length l' + c - length l')%nat
        with (r * length l' + c)%nat by lia.
      cbn [nth]. apply IH; lia.
Qed.

Lemma nth_error_product2 (d : T) (l : list T) (r c : nat) :
  (r < length l)%nat -> (c < length l)%nat ->
  nth_error (Py.product2 l) (r * length l + c) = Some (nth r l d, nth c l d).
Proof. apply nth_error_blocks. Qed.

End RowMajor.

(** ** Expressions *)

Section Expressions.

Lemma Qlt_bool_iff (p q : Q) : Qlt_bool p q = true <-> (p < q)%Q.
Proof.
  unfold Qlt_bool. rewrite negb_true_iff. split.
  - intros H. apply Qnot_le_lt. intros Hle.
    apply Qle_bool_iff in Hle. congruence.
  - intros H. destruct (Qle_bool q p) eqn:E; [|reflexivity].
    apply Qle_bool_iff in E. exfalso. exact (Qlt_not_le _ _ H E).
Qed.

Lemma Qne_bool_iff (q : Q) : negb (Qeq_bool q 0) = true <-> ~ (q == 0)%Q.
Proof.
  rewrite negb_true_iff. split.
  - intros H Heq. apply Qeq_bool_iff in Heq. congruence.
  - intros H. destruct (Qeq_bool q 0) eqn:E; [|reflexivity].
    apply Qeq_bool_iff in E. contradiction.
Qed.

Lemma lookup_app (d1 d2 : Subs) (s : Symbol) :
  lookup (d1 ++ d2) s
  = match lookup d1 s with Some q => Some q | None => lookup d2 s end.
Proof.
  induction d1 as [|[t q] d1 IH]; cbn [app lookup].
  - reflexivity.
  - destruct (Symbol_eqb t s); [reflexivity | exact IH].
Qed.

Lemma subs_subs (d1 d2 : Subs) (e : Expr) :
  subs d2 (subs d1 e) = subs (d1 ++ d2) e.
Proof.
  induction e as [q|s|a IHa b IHb|a IHa b IHb|a IHa b IHb|a IHa k];
    cbn [subs]; try congruence.
  rewrite lookup_app. destruct (lookup d1 s); reflexivity.
Qed.

(** When the dictionary binds every symbol, substitution leaves a number:
    the value under the assignment the dictionary describes. *)
Lemma value_subs_full (d : Subs) (rho : Symbol -> Q) (e : Expr) :
  (forall s, lookup d s = Some (rho s)) ->
  value (subs d e) = Some (eval rho e).
Proof.
  intros Hd.
  induction e as [q|s|a IHa b IHb|a IHa b IHb|a IHa b IHb|a IHa k];
    cbn [subs value eval]; try (rewrite IHa, ?IHb; reflexivity).
  - reflexivity.
  - rewrite Hd. reflexivity.
Qed.

(** A number reached after substituting only some symbols does not depend
    on the others. *)
Lemma value_subs_sound (d : Subs) (rho : Symbol -> Q) (e : Expr) (q : Q) :
  (forall s v, lookup d s = Some v -> rho s = v) ->
  value (subs d e) = Some q -> eval rho e = q.
Proof.
  intros Hd. revert q.
  induction e as [p|s|a IHa b IHb|a IHa b IHb|a IHa b IHb|a IHa k];
    intros q; cbn [subs value eval].
  - congruence.
  - destruct (lookup d s) as [v|] eqn:E; cbn [value]; [|discriminate].
    intros [= <-]. now apply Hd.
  - destruct (value (subs d a)), (value (subs d b)); cbn [lift2]; try discriminate.
    intros [= <-]. now rewrite (IHa _ eq_refl), (IHb _ eq_refl).
  - destruct (value (subs d a)), (value (subs d b)); cbn [lift2]; try discriminate.
    intros [= <-]. now rewrite (IHa _ eq_refl), (IHb _ eq_refl).
  - destruct (value (subs d a)), (value (subs d b)); cbn [lift2]; try discriminate.
    intros [= <-]. now rewrite (IHa _ eq_refl), (IHb _ eq_refl).
  - destruct (value (subs d a)); cbn [option_map]; try discriminate.
    intros [= <-]. now rewrite (IHa _ eq_refl).
Qed.

Lemma value_evalf (e : Expr) (d : Subs) : value (evalf e d) = value (subs d e).
Proof.
  unfold evalf. destruct (value (subs d e)) eqn:E; [reflexivity | exact E].
Qed.

(** Evaluating in two steps, first at a point and then with all four
    symbols bound, gives the value of the expression itself. *)
Lemma value_evalf_twice (e : Expr) (d1 d2 : Subs) (rho : Symbol -> Q) :
  (forall s, lookup (d1 ++ d2) s = Some (rho s)) ->
  value (evalf (evalf e d1) d2) = Some (eval rho e).
Proof.
  intros Hd. rewrite value_evalf. unfold evalf.
  destruct (value (subs d1 e)) as [q|] eqn:E.
  - cbn [subs value]. f_equal. symmetry.
    apply (value_subs_sound d1); [|exact E].
    intros s v Hs. specialize (Hd s). rewrite lookup_app, Hs in Hd. congruence.
  - rewrite subs_subs. now apply value_subs_full.
Qed.

Lemma eval_ext (rho rho' : Symbol -> Q) (e : Expr) :
  (forall s, rho s = rho' s) -> eval rho e = eval rho' e.
Proof.
  intros H.
  induction e as [q|s|a IHa b IHb|a IHa b IHb|a IHa b IHb|a IHa k];
    cbn [eval]; congruence.
Qed.

Lemma eval_subs (rho : Symbol -> Q) (d : Subs) (e : Expr) :
  eval rho (subs d e) = eval (override rho d) e.
Proof.
  induction e as [q|s|a IHa b IHb|a IHa b IHb|a IHa b IHb|a IHa k];
    cbn [subs eval]; try congruence.
  unfold override. destruct (lookup d s); reflexivity.
Qed.

Lemma eval_evalf (rho : Symbol -> Q) (d : Subs) (e : Expr) :
  eval rho (evalf e d) = eval (override rho d) e.
Proof.
  unfold evalf. destruct (value (subs d e)) as [q|] eqn:E.
  - cbn [eval]. symmetry. apply (value_subs_sound d); [|exact E].
    intros s v Hs. unfold override. now rewrite Hs.
  - apply eval_subs.
Qed.

End Expressions.

(** ** The search loop *)

Section Search.

Variable self : FunctionCalculator.

Let ev : Evaluated := snd (evaluate_derivative_at_stationary_points self).

Lemma lookup_point (px py a b : Q) (s : Symbol) :
  lookup ([(Sx, px); (Sy, py)] ++ [(Sx, px); (Sy, py); (SA, a); (SB, b)]) s
  = Some (env px py a b s).
Proof. destruct s; reflexivity. Qed.

(** Each of the six entries of [evaluated_funcs] has a truth value: the
    comparison of the second derivative, or of the discriminant, with every
    symbol replaced. *)
Lemma evaluated_funcs_values (a b : Z) :
  evaluated_funcs self ev a b
  = [ Some (Qlt_bool (f_xx_value self (maximum self) a b) 0);
      Some (Qlt_bool 0 (f_xx_value self (minimum self) a b));
      Some (negb (Qeq_bool (f_xx_value self (saddle self) a b) 0));
      Some (Qlt_bool 0 (d_xy_value self (maximum self) a b));
      Some (Qlt_bool 0 (d_xy_value self (minimum self) a b));
      Some (Qlt_bool (d_xy_value self (saddle self) a b) 0) ].
Proof.
  unfold evaluated_funcs, ev, evaluate_derivative_at_stationary_points.
  cbn [snd f_xx_at_max f_xx_at_min f_xx_at_saddle d_at_max d_at_min d_at_saddle].
  unfold lt0, gt0, ne0, f_xx_value, d_xy_value, maximum, minimum, saddle.
  cbn [fst snd].
  rewrite !(value_evalf_twice _ _ _ _ (lookup_point _ _ _ _)).
  reflexivity.
Qed.

Lemma all_six (b1 b2 b3 b4 b5 b6 : bool) :
  all [Some b1; Some b2; Some b3; Some b4; Some b5; Some b6]
  = inr (b1 && b2 && b3 && b4 && b5 && b6).
Proof. destruct b1, b2, b3, b4, b5, b6; reflexivity. Qed.

Lemma accepts_eq (c : Z * Z) :
  accepts self c = inr (six_predicates_b self (fst c) (snd c)).
Proof.
  unfold accepts. fold ev. rewrite evaluated_funcs_values. apply all_six.
Qed.

Lemma six_predicates_b_iff (a b : Z) :
  six_predicates_b self a b = true <-> six_predicates self a b.
Proof.
  unfold six_predicates_b, six_predicates.
  rewrite !andb_true_iff, !Qlt_bool_iff, Qne_bool_iff. tauto.
Qed.

Lemma solve_eq (n : Z) :
  solve self n
  = {| stdout := fst (evaluate_derivative_at_stationary_points self);
       examined := fst (solve_loop self ev (get_values n));
       outcome := snd (solve_loop self ev (get_values n)) |}.
Proof.
  unfold solve, ev.
  destruct (evaluate_derivative_at_stationary_points self) as [out e].
  cbn [fst snd]. destruct (solve_loop self e (get_values n)); reflexivity.
Qed.

Lemma solve_loop_cons (a b : Z) (rest : list (Z * Z)) :
  solve_loop self ev ((a, b) :: rest)
  = if six_predicates_b self a b
    then ([(a, b)],
          inr (full_func (evalf (general_form self)
                                [(SA, inject_Z a); (SB, inject_Z b)])))
    else ((a, b) :: fst (solve_loop self ev rest),
          snd (solve_loop self ev rest)).
Proof.
  cbn [solve_loop]. rewrite evaluated_funcs_values, all_six.
  fold (six_predicates_b self a b).
  destruct (six_predicates_b self a b); [reflexivity|].
  destruct (solve_loop self ev rest); reflexivity.
Qed.

(** When no candidate is accepted, the loop examines all of them and ends
    in its [else] branch. *)
Lemma solve_loop_none (values : list (Z * Z)) :
  (forall c, In c values -> six_predicates_b self (fst c) (snd c) = false) ->
  solve_loop self ev values = (values, inr not_found).
Proof.
  induction values as [|[a b] rest IH]; intros Hrej.
  - reflexivity.
  - rewrite solve_loop_cons.
    pose proof (Hrej (a, b) (or_introl eq_refl)) as Hab.
    cbn [fst snd] in Hab. rewrite Hab.
    rewrite IH by (intros c Hc; apply Hrej; now right). reflexivity.
Qed.

(** The loop returns at the first accepted candidate, having examined the
    candidates up to it and no other. *)
Lemma solve_loop_first (values : list (Z * Z)) (k : nat) (a b : Z) :
  nth_error values k = Some (a, b) ->
  six_predicates_b self a b = true ->
  (forall k' c, (k' < k)%nat -> nth_error values k' = Some c ->
                six_predicates_b self (fst c) (snd c) = false) ->
  solve_loop self ev values
  = (firstn (S k) values,
     inr (full_func (evalf (general_form self)
                           [(SA, inject_Z a); (SB, inject_Z b)]))).
Proof.
  revert k. induction values as [|[a0 b0] rest IH]; intros k Hk Hacc Hrej.
  - destruct k; discriminate.
  - rewrite solve_loop_cons. destruct k as [|k].
    + injection Hk as -> ->. rewrite Hacc. reflexivity.
    + pose proof (Hrej 0%nat (a0, b0) (Nat.lt_0_succ k) eq_refl) as H0.
      cbn [fst snd] in H0. rewrite H0.
      rewrite (IH k); [reflexivity | exact Hk | exact Hacc |].
      intros k' c Hlt Hc. apply (Hrej (S k') c); [lia | exact Hc].
Qed.

(** Among the accepted candidates there is a first one. *)
Lemma first_accepted (values : list (Z * Z)) (i : nat) (c : Z * Z) :
  nth_error values i = Some c ->
  six_predicates_b self (fst c) (snd c) = true ->
  exists k a b,
    (k <= i)%nat /\ nth_error values k = Some (a, b)
    /\ six_predicates_b self a b = true
    /\ (forall k' c', (k' < k)%nat -> nth_error values k' = Some c' ->
                      six_predicates_b self (fst c') (snd c') = false).
Proof.
  revert i. induction values as [|[a0 b0] rest IH]; intros i Hi Hacc.
  - destruct i; discriminate.
  - destruct (six_predicates_b self a0 b0) eqn:E0.
    + exists 0%nat, a0, b0. repeat split; [lia | exact E0 | intros; lia].
    + destruct i as [|i].
      * injection Hi as <-. cbn [fst snd] in Hacc. congruence.
      * destruct (IH i Hi Hacc) as (k & a & b & Hle & Hk & Hk_acc & Hrej).
        exists (S k), a, b. repeat split; [lia | exact Hk | exact Hk_acc |].
        intros [|k'] c' Hlt Hc'.
        -- injection Hc' as <-. exact E0.
        -- apply (Hrej k'); [lia | exact Hc'].
Qed.

(** A candidate that fails the first condition is rejected. *)
Lemma rejected_at_maximum (a b : Z) :
  ~ (f_xx_value self (maximum self) a b < 0)%Q ->
  six_predicates_b self a b = false.
Proof.
  intros H. unfold six_predicates_b.
  destruct (Qlt_bool (f_xx_value self (maximum self) a b) 0) eqn:E.
  - apply Qlt_bool_iff in E. contradiction.
  - reflexivity.
Qed.


(** The loop either returns at an accepted candidate or rejects all of them
    and ends in its [else] branch; it never raises. *)
Lemma solve_loop_cases (values : list (Z * Z)) :
  (exists a b,
      In (a, b) values /\ six_predicates_b self a b = true
      /\ snd (solve_loop self ev values)
         = inr (full_func (evalf (general_form self)
                                 [(SA, inject_Z a); (SB, inject_Z b)])))
  \/ ((forall c, In c values -> six_predicates_b self (fst c) (snd c) = false)
      /\ solve_loop self ev values = (values, inr not_found)).
Proof.
  induction values as [|[a b] rest IH].
  - right. split; [intros c []| reflexivity].
  - rewrite solve_loop_cons. destruct (six_predicates_b self a b) eqn:E.
    + left. exists a, b. repeat split; [now left | exact E].
    + destruct IH as [(a' & b' & Hin & Hacc & Hout) | (Hrej & Hloop)].
      * left. exists a', b'. repeat split; [now right | exact Hacc | exact Hout].
      * right. rewrite Hloop. split; [|reflexivity].
        intros c [<- | Hc]; [exact E | now apply Hrej].
Qed.

End Search.

(** ** The calculator the constructor builds *)

Section Constructed.

Variables (maximum_arg minimum_arg saddle_arg : list Q) (flag : bool).
Variable self : FunctionCalculator.
Hypothesis Hinit : __init__ maximum_arg minimum_arg saddle_arg flag = inr self.

Lemma unpack2_inr (t : list Q) (a b : Q) :
  unpack2 t = inr (a, b) -> t = [a; b].
Proof.
  destruct t as [|u [|v [|w t]]]; cbn [unpack2]; try discriminate.
  now intros [= -> ->].
Qed.

Lemma init_inv :
  maximum_arg = [max_x self; max_y self]
  /\ minimum_arg = [min_x self; min_y self]
  /\ saddle_arg = [saddle_x self; saddle_y self]
  /\ print_steps self = flag
  /\ f_x self = fst (get_first_order_partial_derivatives (max_x self) (min_y self))
  /\ f_y self = snd (get_first_order_partial_derivatives (max_x self) (min_y self))
  /\ general_form self = get_general_form (f_x self) (f_y self)
  /\ f_xx self = fst (get_second_partial_derivatives (f_x self) (f_y self))
  /\ d_xy self = snd (get_second_partial_derivatives (f_x self) (f_y self)).
Proof.
  revert Hinit. unfold __init__, bind.
  destruct (unpack2 maximum_arg) as [|[mx my]] eqn:E1; [discriminate|].
  destruct (unpack2 minimum_arg) as [|[nx ny]] eqn:E2; [discriminate|].
  destruct (unpack2 saddle_arg) as [|[sx sy]] eqn:E3; [discriminate|].
  apply unpack2_inr in E1, E2, E3. subst.
  intros [= <-]. cbn. repeat split; reflexivity.
Qed.

Lemma f_x_value (rho : Symbol -> Q) :
  (eval rho (f_x self)
   == rho SA * rho Sx * rho Sx - rho SA * rho Sx * max_x self)%Q.
Proof.
  destruct init_inv as (_ & _ & _ & _ & -> & _).
  cbn [get_first_order_partial_derivatives fst eval]. reflexivity.
Qed.

Lemma f_y_value (rho : Symbol -> Q) :
  (eval rho (f_y self)
   == rho SB * rho Sy * rho Sy - rho SB * rho Sy * min_y self)%Q.
Proof.
  destruct init_inv as (_ & _ & _ & _ & _ & -> & _).
  cbn [get_first_order_partial_derivatives snd eval]. reflexivity.
Qed.

(** [f_xx = 2*A*x - A*max_x]. *)
Lemma f_xx_eval (rho : Symbol -> Q) :
  (eval rho (f_xx self) == 2 * rho SA * rho Sx - rho SA * max_x self)%Q.
Proof.
  destruct init_inv as (_ & _ & _ & _ & Hx & _ & _ & -> & _). rewrite Hx.
  cbn [get_second_partial_derivatives get_first_order_partial_derivatives
       fst snd eval diff Symbol_eqb].
  ring.
Qed.

(** [d_xy = f_xx * f_yy - f_xy^2], where [f_xy] vanishes. *)
Lemma d_xy_eval (rho : Symbol -> Q) :
  (eval rho (d_xy self)
   == (2 * rho SA * rho Sx - rho SA * max_x self)
      * (2 * rho SB * rho Sy - rho SB * min_y self))%Q.
Proof.
  destruct init_inv as (_ & _ & _ & _ & Hx & Hy & _ & _ & ->). rewrite Hx, Hy.
  cbn [get_second_partial_derivatives get_first_order_partial_derivatives
       fst snd eval diff Symbol_eqb Qpow].
  ring.
Qed.

Lemma general_form_eval (rho : Symbol -> Q) :
  (eval rho (general_form self)
   == rho SA * Qpow (rho Sx) 3 / 3 - rho SA * max_x self * Qpow (rho Sx) 2 / 2
      + rho SB * Qpow (rho Sy) 3 / 3 - rho SB * min_y self * Qpow (rho Sy) 2 / 2)%Q.
Proof.
  destruct init_inv as (_ & _ & _ & _ & Hx & Hy & -> & _). rewrite Hx, Hy.
  cbn [get_general_form get_first_order_partial_derivatives fst snd
       integrate integrate_terms as_poly padd pscale pmul map Symbol_eqb
       eval Qpow Pos.of_succ_nat Pos.succ].
  field.
Qed.

End Constructed.

(** ** Integration of polynomials *)

Section Integration.

Variable rho : Symbol -> Q.
Variable s : Symbol.

Local Open Scope Q_scope.

Lemma peval_padd (p q : list Expr) (t : Q) :
  peval rho (padd p q) t == peval rho p t + peval rho q t.
Proof.
  revert q. induction p as [|a p IH]; intros [|b q]; cbn [padd peval eval].
  - ring.
  - ring.
  - ring.
  - rewrite IH. ring.
Qed.

Lemma peval_pscale (c : Expr) (p : list Expr) (t : Q) :
  peval rho (pscale c p) t == eval rho c * peval rho p t.
Proof.
  induction p as [|a p IH]; cbn [pscale map peval eval].
  - ring.
  - fold (pscale c p). rewrite IH. ring.
Qed.

Lemma peval_pmul (p q : list Expr) (t : Q) :
  peval rho (pmul p q) t == peval rho p t * peval rho q t.
Proof.
  induction p as [|a p IH]; cbn [pmul peval].
  - ring.
  - rewrite peval_padd, peval_pscale. cbn [peval eval]. rewrite IH. ring.
Qed.

Lemma peval_ppow (p : list Expr) (k : nat) (t : Q) :
  peval rho (ppow p k) t == Qpow (peval rho p t) k.
Proof.
  induction k as [|k IH]; cbn [ppow peval eval Qpow].
  - ring.
  - rewrite peval_pmul, IH. reflexivity.
Qed.

Lemma Qpow_comp (p q : Q) (k : nat) : p == q -> Qpow p k == Qpow q k.
Proof.
  intros H. induction k as [|k IH]; cbn [Qpow]; [reflexivity|].
  now rewrite IH, H.
Qed.

(** The coefficient list of an expression has the value of the expression. *)
Lemma as_poly_eval (e : Expr) : peval rho (as_poly e s) (rho s) == eval rho e.
Proof.
  induction e as [q|t|a IHa b IHb|a IHa b IHb|a IHa b IHb|a IHa k];
    cbn [as_poly eval].
  - cbn [peval eval]. ring.
  - destruct (Symbol_eqb t s) eqn:E; cbn [peval eval]; [|ring].
    destruct t, s; try discriminate; ring.
  - rewrite peval_padd, IHa, IHb. reflexivity.
  - rewrite peval_padd, peval_pscale, IHa, IHb. cbn [eval]. ring.
  - rewrite peval_pmul, IHa, IHb. reflexivity.
  - rewrite peval_ppow. now apply Qpow_comp.
Qed.

Lemma free_padd (p q : list Expr) : free s p -> free s q -> free s (padd p q).
Proof.
  intros Hp. revert q. induction Hp as [|a p Ha Hp IH]; intros q Hq.
  - exact Hq.
  - destruct Hq as [|b q Hb Hq]; cbn [padd].
    + now constructor.
    + constructor; [cbn [mentions]; now rewrite Ha, Hb | now apply IH].
Qed.

Lemma free_pscale (c : Expr) (p : list Expr) :
  mentions s c = false -> free s p -> free s (pscale c p).
Proof.
  intros Hc Hp. induction Hp as [|a p Ha Hp IH]; cbn [pscale map].
  - constructor.
  - constructor; [cbn [mentions]; now rewrite Hc, Ha | exact IH].
Qed.

Lemma free_pmul (p q : list Expr) : free s p -> free s q -> free s (pmul p q).
Proof.
  intros Hp Hq. induction Hp as [|a p Ha Hp IH]; cbn [pmul].
  - constructor.
  - apply free_padd; [now apply free_pscale | now constructor].
Qed.

Lemma free_as_poly (e : Expr) : free s (as_poly e s).
Proof.
  induction e as [q|t|a IHa b IHb|a IHa b IHb|a IHa b IHb|a IHa k];
    cbn [as_poly].
  - now repeat constructor.
  - destruct (Symbol_eqb t s) eqn:E; now repeat constructor.
  - now apply free_padd.
  - apply free_padd; [exact IHa | now apply free_pscale].
  - now apply free_pmul.
  - induction k as [|k IH]; cbn [ppow]; [now repeat constructor|].
    now apply free_pmul.
Qed.

(** The derivative in [s] of an expression without [s] is zero. *)
Lemma diff_free (c : Expr) : mentions s c = false -> eval rho (diff c s) == 0.
Proof.
  induction c as [q|t|a IHa b IHb|a IHa b IHb|a IHa b IHb|a IHa k];
    cbn [mentions diff eval]; intros H;
    try (apply orb_false_iff in H; destruct H as [H1 H2];
         rewrite (IHa H1), (IHb H2); ring).
  - reflexivity.
  - rewrite H. reflexivity.
  - destruct k; cbn [eval]; [reflexivity|]. rewrite (IHa H). ring.
Qed.

Lemma succ_inv (i : nat) : (1 # Pos.of_succ_nat i) * inject_Z (Z.of_nat (S i)) == 1.
Proof.
  unfold Qeq, Qmult, inject_Z. cbn [Qnum Qden Z.of_nat]. lia.
Qed.

Lemma diff_integrate_terms (i : nat) (p : list Expr) :
  free s p ->
  eval rho (diff (integrate_terms s i p) s)
  == Qpow (rho s) i * peval rho p (rho s).
Proof.
  intros Hp. revert i. induction Hp as [|c p Hc Hp IH]; intros i.
  - cbn [integrate_terms diff eval peval]. ring.
  - cbn [integrate_terms diff eval peval]. rewrite IH, (diff_free c Hc).
    replace (Symbol_eqb s s) with true by (destruct s; reflexivity).
    cbn [eval Qpow].
    setoid_replace
      (0 * (1 # Pos.of_succ_nat i) + eval rho c * 0) with 0 by ring.
    transitivity
      (eval rho c * Qpow (rho s) i
         * ((1 # Pos.of_succ_nat i) * inject_Z (Z.of_nat (S i)))
       + rho s * Qpow (rho s) i * peval rho p (rho s)); [ring|].
    rewrite succ_inv. ring.
Qed.

(** [integrate] returns an antiderivative: its derivative has the value of
    the integrand. *)
Lemma diff_integrate (e : Expr) :
  eval rho (diff (integrate e s) s) == eval rho e.
Proof.
  unfold integrate. rewrite diff_integrate_terms by apply free_as_poly.
  cbn [Qpow]. rewrite as_poly_eval. ring.
Qed.

(** Every term of the antiderivative has [s] as a factor: no constant of
    integration. *)
Lemma integrate_terms_zero (i : nat) (p : list Expr) :
  rho s == 0 -> eval rho (integrate_terms s i p) == 0.
Proof.
  intros H0. revert i. induction p as [|c p IH]; intros i;
    cbn [integrate_terms eval Qpow].
  - reflexivity.
  - rewrite IH. generalize (Qpow (rho s) i) as q. intros q.
    rewrite H0. ring.
Qed.

Lemma integrate_zero (e : Expr) : rho s == 0 -> eval rho (integrate e s) == 0.
Proof. apply integrate_terms_zero. Qed.

End Integration.

(** * The claims of the specification *)

Lemma firstn_exact {T : Type} (l l' : list T) : firstn (length l) (l ++ l') = l.
Proof. induction l as [|a l IH]; cbn; [now destruct l' | now rewrite IH]. Qed.

Lemma interleave_same (f g : nat -> Z) (l : list nat) :
  interleave_longest (map f l) (map g l) = flat_map (fun i => [f i; g i]) l.
Proof. induction l as [|i l IH]; cbn; [reflexivity | now rewrite IH]. Qed.

(** C1, as the specification words it, fails at [n = 1]: the sequence the
    code builds is not the draining interleaving followed by [n], and the
    number of candidates is 9, not [(2*1+2)^2 = 16]. *)
Lemma numbers_not_draining :
  numbers 1 <> spec_numbers 1
  /\ Z.of_nat (length (get_values 1)) <> (2 * 1 + 2) ^ 2.
Proof. split; vm_compute; discriminate. Qed.

(** C1 (amended): for every bound [n >= 0] the number sequence interleaves
    [range(0..=n)] with [range(-1..=-n)] pair by pair, stopping when the
    shorter range is exhausted (the unpaired last element [n] of the longer
    one is dropped), and appends [n] once at the end, so that [n] occurs
    exactly once; the candidate sequence has length [(2n+1)^2]. *)
Theorem numbers_truncating_interleave (n : Z) :
  0 <= n ->
  Py.range (n + 1) = firstn (Z.to_nat n) (Py.range (n + 1)) ++ [n]
  /\ numbers n
     = interleave_longest (firstn (Z.to_nat n) (Py.range (n + 1)))
                          (Py.range3 (-1) (- n - 1) (-1))
       ++ [n]
  /\ count_occ Z.eq_dec (numbers n) n = 1%nat
  /\ Z.of_nat (length (numbers n)) = 2 * n + 1
  /\ Z.of_nat (length (get_values n)) = (2 * n + 1) ^ 2.
Proof.
  intros Hn.
  assert (Hfirst : firstn (Z.to_nat n) (Py.range (n + 1))
                   = map Z.of_nat (seq 0 (Z.to_nat n))).
  { rewrite range_up, seq_S, map_app by assumption.
    generalize (firstn_exact (map Z.of_nat (seq 0 (Z.to_nat n)))
                             (map Z.of_nat [(0 + Z.to_nat n)%nat])).
    now rewrite length_map, length_seq. }
  repeat split.
  - rewrite Hfirst, range_up, seq_S, map_app by assumption.
    cbn [map Nat.add]. now rewrite Z2Nat.id.
  - rewrite Hfirst, range_down, interleave_same by assumption.
    now apply numbers_closed.
  - rewrite count_numbers by assumption.
    destruct (Z.leb_spec (- n) n), (Z.leb_spec n n); cbn [andb]; lia.
  - now apply length_numbers.
  - now apply length_get_values.
Qed.

Lemma numbers_truncating_interleave_witness :
  0 <= 3
  /\ numbers 3 = [0; -1; 1; -2; 2; -3; 3]
  /\ Z.of_nat (length (get_values 3)) = 49.
Proof.
  split; [lia|].
  destruct (numbers_truncating_interleave 3 ltac:(lia)) as (_ & H & _ & _ & L).
  split; [exact H | exact L].
Defined.

(** C9: for every [n >= 0] the number sequence is 0, -1, 1, -2, 2, ...,
    n-1, -n followed by a single [n]; it contains each integer of [-n, n]
    exactly once (and no other), and the enumerator yields exactly
    [(2n+1)^2] candidate pairs. *)
Theorem get_values_odd_square (n : Z) :
  0 <= n ->
  numbers n
  = flat_map (fun i => [Z.of_nat i; - Z.of_nat i - 1]) (seq 0 (Z.to_nat n))
    ++ [n]
  /\ (forall z, count_occ Z.eq_dec (numbers n) z
                = if (- n <=? z) && (z <=? n) then 1%nat else 0%nat)
  /\ NoDup (numbers n)
  /\ Z.of_nat (length (get_values n)) = (2 * n + 1) ^ 2.
Proof.
  intros Hn. repeat split.
  - now apply numbers_closed.
  - intros z. now apply count_numbers.
  - apply (NoDup_count_occ Z.eq_dec). intros z.
    rewrite count_numbers by assumption.
    destruct ((- n <=? z) && (z <=? n)); lia.
  - now apply length_get_values.
Qed.

Lemma get_values_odd_square_witness :
  0 <= 2
  /\ numbers 2 = [0; -1; 1; -2; 2]
  /\ count_occ Z.eq_dec (numbers 2) 2 = 1%nat
  /\ Z.of_nat (length (get_values 2)) = 25.
Proof.
  split; [lia|].
  destruct (get_values_odd_square 2 ltac:(lia)) as (H & C & _ & L).
  split; [exact H | split; [exact (C 2) | exact L]].
Defined.

(** C5: for every bound [n < 0] the enumerator yields nothing, and [solve]
    returns the message at once: no candidate is examined. *)
Theorem negative_bound_not_found (self : FunctionCalculator) (n : Z) :
  n < 0 ->
  get_values n = []
  /\ examined (solve self n) = []
  /\ outcome (solve self n) = inr (message "Solution could not be found").
Proof.
  intros Hn.
  assert (H : get_values n = []).
  { unfold get_values.
    now replace (n <? 0) with true by (symmetry; apply Z.ltb_lt; lia). }
  rewrite solve_eq, H. cbn. repeat split; reflexivity.
Qed.

Lemma negative_bound_not_found_witness :
  exists self,
    solver = inr self /\ -1 < 0
    /\ get_values (-1) = []
    /\ examined (solve self (-1)) = []
    /\ outcome (solve self (-1)) = inr (message "Solution could not be found").
Proof.
  eexists. split; [reflexivity|]. split; [lia|].
  apply (negative_bound_not_found _ (-1)). lia.
Defined.

(** C8: the constructor succeeds for any three pairs of coordinates, and
    raises the unpacking error, returning no calculator, whenever one of
    the three arguments does not have exactly two elements; the error
    reaches the caller. *)
Theorem constructor_unpacks_pairs :
  (forall mx my nx ny sx sy flag,
      exists self,
        __init__ [mx; my] [nx; ny] [sx; sy] flag = inr self
        /\ maximum self = (mx, my) /\ minimum self = (nx, ny)
        /\ saddle self = (sx, sy) /\ print_steps self = flag)
  /\ (forall maximum minimum saddle flag,
         length maximum <> 2%nat \/ length minimum <> 2%nat
         \/ length saddle <> 2%nat ->
         __init__ maximum minimum saddle flag = inl ValueError
         /\ forall n,
             construct_and_solve maximum minimum saddle flag n = inl ValueError)
  /\ (forall maximum minimum saddle flag self,
         __init__ maximum minimum saddle flag = inr self ->
         length maximum = 2%nat /\ length minimum = 2%nat
         /\ length saddle = 2%nat).
Proof.
  split; [|split].
  - intros. eexists. split; [reflexivity|]. repeat split; reflexivity.
  - intros M m s flag H.
    assert (Hfail : __init__ M m s flag = inl ValueError).
    { unfold __init__, bind.
      destruct M as [|a [|b [|c M]]]; cbn [unpack2]; try reflexivity.
      destruct m as [|a' [|b' [|c' m]]]; cbn [unpack2]; try reflexivity.
      destruct s as [|a'' [|b'' [|c'' s]]]; cbn [unpack2]; try reflexivity.
      cbn [length] in H. lia. }
    split; [exact Hfail|].
    intros n. unfold construct_and_solve. now rewrite Hfail.
  - intros M m s flag self H.
    destruct (init_inv _ _ _ _ _ H) as (-> & -> & -> & _).
    repeat split; reflexivity.
Qed.

Lemma constructor_unpacks_pairs_witness :
  (exists self, solver = inr self /\ maximum self = (25 # 1, 15 # 1))
  /\ __init__ [25 # 1; 15 # 1] [-5 # 1; -12 # 1; 0]%Q [0; 0]%Q false
     = inl ValueError
  /\ __init__ [25 # 1; 15 # 1] [-5 # 1; -12 # 1] [0]%Q true = inl ValueError.
Proof.
  destruct constructor_unpacks_pairs as (Hok & Hfail & _).
  split; [|split].
  - destruct (Hok (25 # 1) (15 # 1) (-5 # 1) (-12 # 1) 0 0 false)%Q
      as (self & Hself & Hmax & _).
    exists self. split; [exact Hself | exact Hmax].
  - apply Hfail. right. left. cbn [length]. lia.
  - apply Hfail. right. right. cbn [length]. lia.
Defined.

Lemma accepts_true (self : FunctionCalculator) (c : Z * Z) :
  accepts self c = inr true <-> six_predicates_b self (fst c) (snd c) = true.
Proof. rewrite accepts_eq. split; congruence. Qed.

Lemma accepts_false (self : FunctionCalculator) (c : Z * Z) :
  accepts self c = inr false <-> six_predicates_b self (fst c) (snd c) = false.
Proof. rewrite accepts_eq. split; congruence. Qed.



Lemma get_values_product (n : Z) (c : Z * Z) (i : nat) :
  nth_error (get_values n) i = Some c ->
  0 <= n /\ get_values n = Py.product2 (numbers n).
Proof.
  unfold get_values. destruct (Z.ltb_spec n 0).
  - destruct i; discriminate.
  - intros _. split; [lia | reflexivity].
Qed.

(** C3: the candidates are the pairs of the number sequence in row-major
    order (the candidate at position [r * len + c] is [(v_r, v_c)]), and when
    two candidates at positions [i < j] both satisfy the six conditions,
    [solve] returns the solution of the first accepted candidate, which is
    at a position [k <= i]; the candidates after [k], the one at [j] among
    them, are not examined. *)
Theorem first_match_in_row_major_order
  (self : FunctionCalculator) (n : Z) (i j : nat) (c1 c2 : Z * Z) :
  (i < j)%nat ->
  nth_error (get_values n) i = Some c1 ->
  nth_error (get_values n) j = Some c2 ->
  accepts self c1 = inr true ->
  accepts self c2 = inr true ->
  (forall r c, (r < length (numbers n))%nat -> (c < length (numbers n))%nat ->
               nth_error (get_values n) (r * length (numbers n) + c)
               = Some (nth r (numbers n) 0, nth c (numbers n) 0))
  /\ exists k a b,
      (k <= i)%nat
      /\ nth_error (get_values n) k = Some (a, b)
      /\ accepts self (a, b) = inr true
      /\ (forall k' c, (k' < k)%nat -> nth_error (get_values n) k' = Some c ->
                       accepts self c = inr false)
      /\ examined (solve self n) = firstn (S k) (get_values n)
      /\ outcome (solve self n)
         = inr (full_func (evalf (general_form self)
                                 [(SA, inject_Z a); (SB, inject_Z b)]))
      /\ (length (examined (solve self n)) <= j)%nat.
Proof.
  intros Hij Hi Hj Hacc1 Hacc2.
  destruct (get_values_product n c1 i Hi) as [Hn Hprod]. split.
  - intros r c Hr Hc. rewrite Hprod. now apply nth_error_product2.
  - apply accepts_true in Hacc1.
    destruct (first_accepted self _ i c1 Hi Hacc1)
      as (k & a & b & Hle & Hk & Hka & Hrej).
    exists k, a, b.
    assert (Hloop := solve_loop_first self _ k a b Hk Hka Hrej).
    rewrite solve_eq. cbn [examined outcome]. rewrite Hloop. cbn [fst snd].
    repeat split; try assumption.
    + now apply (accepts_true self (a, b)).
    + intros k' c Hlt Hc. apply accepts_false. now apply (Hrej k').
    + rewrite length_firstn. lia.
Qed.

Lemma first_match_in_row_major_order_witness :
  exists self,
    solver = inr self
    /\ (6 < 8)%nat
    /\ nth_error (get_values 2) 6 = Some (-1, -1)
    /\ nth_error (get_values 2) 8 = Some (-1, -2)
    /\ accepts self (-1, -1) = inr true
    /\ accepts self (-1, -2) = inr true
    /\ nth_error (get_values 2) (1 * length (numbers 2) + 3)
       = Some (nth 1 (numbers 2) 0, nth 3 (numbers 2) 0)
    /\ (length (examined (solve self 2)) <= 8)%nat.
Proof.
  eexists. split; [reflexivity|].
  match goal with |- context [accepts ?s (-1, -1)] => set (self := s) end.
  assert (H68 : (6 < 8)%nat) by lia.
  assert (A1 : accepts self (-1, -1) = inr true) by (vm_compute; reflexivity).
  assert (A2 : accepts self (-1, -2) = inr true) by (vm_compute; reflexivity).
  destruct (first_match_in_row_major_order self 2 6 8 (-1, -1) (-1, -2)
              H68 eq_refl eq_refl A1 A2)
    as (Hrow & k & a & b & _ & _ & _ & _ & _ & _ & Hlen).
  do 5 (split; [assumption || reflexivity|]).
  split; [|exact Hlen].
  apply Hrow; vm_compute; lia.
Defined.

(** The run of example.py's calculator with the bound 2: the seventh
    candidate, [(-1, -1)], is the first accepted one. *)
Example solver_bound_2 :
  exists self,
    solver = inr self
    /\ examined (solve self 2)
       = [(0, 0); (0, -1); (0, 1); (0, -2); (0, 2); (-1, 0); (-1, -1)]
    /\ outcome (solve self 2)
       = inr (full_func (evalf (general_form self) [(SA, -1 # 1); (SB, -1 # 1)])).
Proof.
  eexists. split; [reflexivity|]. split; vm_compute; reflexivity.
Qed.

(** C4: for the calculator of any three stationary points, [general_form]
    is the sum of an antiderivative of [f_y] in [y] and an antiderivative of
    [f_x = A*x^2 - A*x*max_x] in [x] (the derivative of each has the value of
    its integrand), both without constant term; its value is
    [A*x^3/3 - A*max_x*x^2/2 + B*y^3/3 - B*min_y*y^2/2]. *)
Theorem general_form_sums_antiderivatives
  (maximum minimum saddle : list Q) (flag : bool) (self : FunctionCalculator) :
  __init__ maximum minimum saddle flag = inr self ->
  general_form self = Add (integrate (f_y self) Sy) (integrate (f_x self) Sx)
  /\ forall rho : Symbol -> Q,
      (eval rho (f_x self)
       == rho SA * rho Sx * rho Sx - rho SA * rho Sx * max_x self
       /\ eval rho (f_y self)
          == rho SB * rho Sy * rho Sy - rho SB * rho Sy * min_y self
       /\ eval rho (diff (integrate (f_x self) Sx) Sx) == eval rho (f_x self)
       /\ eval rho (diff (integrate (f_y self) Sy) Sy) == eval rho (f_y self)
       /\ (rho Sx == 0 -> eval rho (integrate (f_x self) Sx) == 0)
       /\ (rho Sy == 0 -> eval rho (integrate (f_y self) Sy) == 0)
       /\ eval rho (general_form self)
          == rho SA * Qpow (rho Sx) 3 / 3
             - rho SA * max_x self * Qpow (rho Sx) 2 / 2
             + rho SB * Qpow (rho Sy) 3 / 3
             - rho SB * min_y self * Qpow (rho Sy) 2 / 2)%Q.
Proof.
  intros Hinit. split.
  - now destruct (init_inv _ _ _ _ _ Hinit) as (_ & _ & _ & _ & _ & _ & -> & _).
  - intros rho. repeat apply conj.
    + exact (f_x_value _ _ _ _ _ Hinit rho).
    + exact (f_y_value _ _ _ _ _ Hinit rho).
    + apply diff_integrate.
    + apply diff_integrate.
    + apply integrate_zero.
    + apply integrate_zero.
    + exact (general_form_eval _ _ _ _ _ Hinit rho).
Qed.

Lemma general_form_sums_antiderivatives_witness :
  exists self,
    solver = inr self
    /\ general_form self = Add (integrate (f_y self) Sy) (integrate (f_x self) Sx)
    /\ (eval (env 2 3 1 1) (general_form self) == 47 # 3)%Q.
Proof.
  eexists. split; [reflexivity|].
  match goal with |- general_form ?s = _ /\ _ => set (self := s) end.
  destruct (general_form_sums_antiderivatives
              [25 # 1; 15 # 1] [-5 # 1; -12 # 1] [0; 0]%Q false self eq_refl)
    as (Hsum & Hval).
  split; [exact Hsum|].
  destruct (Hval (env 2 3 1 1)) as (_ & _ & _ & _ & _ & _ & ->).
  vm_compute. reflexivity.
Defined.

(** C6: with the bound 0 the only candidate is [(0, 0)]; with [A = B = 0]
    the second derivative is zero at every point, the candidate is rejected,
    and [solve] returns the message, whatever the stationary points. *)
Theorem zero_bound_not_found
  (maximum minimum saddle : list Q) (flag : bool) (self : FunctionCalculator) :
  __init__ maximum minimum saddle flag = inr self ->
  get_values 0 = [(0, 0)]
  /\ (forall p, f_xx_value self p 0 0 == 0)%Q
  /\ accepts self (0, 0) = inr false
  /\ examined (solve self 0) = [(0, 0)]
  /\ outcome (solve self 0) = inr (message "Solution could not be found").
Proof.
  intros Hinit.
  assert (Hzero : forall p, (f_xx_value self p 0 0 == 0)%Q).
  { intros p. unfold f_xx_value. rewrite (f_xx_eval _ _ _ _ _ Hinit).
    cbn [env]. change (inject_Z 0) with 0%Q. ring. }
  assert (Hrej : six_predicates_b self 0 0 = false).
  { apply rejected_at_maximum. rewrite Hzero. apply Qlt_irrefl. }
  split; [reflexivity|]. split; [exact Hzero|].
  split; [now apply accepts_false|].
  rewrite solve_eq. cbn [examined outcome].
  change (get_values 0) with [(0, 0)].
  rewrite solve_loop_cons, Hrej. cbn. split; reflexivity.
Qed.

Lemma zero_bound_not_found_witness :
  exists self,
    solver = inr self
    /\ examined (solve self 0) = [(0, 0)]
    /\ outcome (solve self 0) = inr (message "Solution could not be found").
Proof.
  eexists. split; [reflexivity|].
  match goal with |- examined (solve ?s _) = _ /\ _ => set (self := s) end.
  destruct (zero_bound_not_found
              [25 # 1; 15 # 1] [-5 # 1; -12 # 1] [0; 0]%Q false self eq_refl)
    as (_ & _ & _ & Hex & Hout).
  split; [exact Hex | exact Hout].
Defined.

(** C10: when the x-coordinate of the maximum is 0, the second derivative
    at the maximum is [A * max_x = 0] for every candidate, the condition
    [f_xx < 0] at the maximum never holds, and [solve] returns the message
    for every bound and every choice of the other two points. *)
Theorem maximum_at_x_zero_not_found
  (maximum_arg minimum_arg saddle_arg : list Q) (flag : bool)
  (self : FunctionCalculator) :
  __init__ maximum_arg minimum_arg saddle_arg flag = inr self ->
  (max_x self == 0)%Q ->
  (forall a b,
      (f_xx_value self (maximum self) a b == inject_Z a * max_x self)%Q
      /\ (f_xx_value self (maximum self) a b == 0)%Q
      /\ accepts self (a, b) = inr false)
  /\ forall n,
      examined (solve self n) = get_values n
      /\ outcome (solve self n) = inr (message "Solution could not be found").
Proof.
  intros Hinit Hmx.
  assert (Hval : forall a b,
             (f_xx_value self (maximum self) a b == inject_Z a * max_x self)%Q).
  { intros a b. unfold f_xx_value, maximum.
    rewrite (f_xx_eval _ _ _ _ _ Hinit). cbn [env fst snd]. ring. }
  assert (Hrej : forall a b, six_predicates_b self a b = false).
  { intros a b. apply rejected_at_maximum.
    rewrite Hval, Hmx, Qmult_0_r. apply Qlt_irrefl. }
  split.
  - intros a b. split; [apply Hval|]. split.
    + rewrite Hval, Hmx. apply Qmult_0_r.
    + apply accepts_false. apply Hrej.
  - intros n. rewrite solve_eq. cbn [examined outcome].
    rewrite solve_loop_none by (intros c _; apply Hrej).
    split; reflexivity.
Qed.

Lemma maximum_at_x_zero_not_found_witness :
  exists self,
    __init__ [0; 15 # 1]%Q [-5 # 1; -12 # 1] [0; 0]%Q false = inr self
    /\ (max_x self == 0)%Q
    /\ outcome (solve self 3) = inr (message "Solution could not be found").
Proof.
  eexists. split; [reflexivity|].
  match goal with |- (max_x ?s == _)%Q /\ _ => set (self := s) end.
  assert (Hmx : (max_x self == 0)%Q) by reflexivity.
  split; [exact Hmx|].
  destruct (maximum_at_x_zero_not_found
              [0; 15 # 1]%Q [-5 # 1; -12 # 1] [0; 0]%Q false self eq_refl Hmx)
    as (_ & Hn).
  exact (proj2 (Hn 3)).
Defined.

(** Two calculators with the same points and expressions run the same
    search: the loop does not read [print_steps]. *)
Lemma solve_loop_flag (c1 c2 : FunctionCalculator) (values : list (Z * Z)) :
  maximum c1 = maximum c2 -> minimum c1 = minimum c2 -> saddle c1 = saddle c2 ->
  f_xx c1 = f_xx c2 -> d_xy c1 = d_xy c2 -> general_form c1 = general_form c2 ->
  solve_loop c1 (snd (evaluate_derivative_at_stationary_points c1)) values
  = solve_loop c2 (snd (evaluate_derivative_at_stationary_points c2)) values.
Proof.
  intros Hmax Hmin Hsad Hf Hd Hg.
  assert (Hsix : forall a b, six_predicates_b c1 a b = six_predicates_b c2 a b).
  { intros a b. unfold six_predicates_b, f_xx_value, d_xy_value.
    now rewrite Hmax, Hmin, Hsad, Hf, Hd. }
  induction values as [|[a b] rest IH].
  - reflexivity.
  - now rewrite !solve_loop_cons, Hsix, Hg, IH.
Qed.

(** Whether the constructor raises does not depend on the flag. *)
Lemma init_flag (maximum_arg minimum_arg saddle_arg : list Q) :
  match __init__ maximum_arg minimum_arg saddle_arg true,
        __init__ maximum_arg minimum_arg saddle_arg false with
  | inl e1, inl e2 => e1 = e2
  | inr _, inr _ => True
  | _, _ => False
  end.
Proof.
  unfold __init__, bind.
  destruct (unpack2 maximum_arg) as [|[mx my]]; [reflexivity|].
  destruct (unpack2 minimum_arg) as [|[nx ny]]; [reflexivity|].
  destruct (unpack2 saddle_arg) as [|[sx sy]]; [reflexivity|].
  exact I.
Qed.

(** C7: for every three arguments and every bound, constructing the
    calculator and solving returns the same result (or raises the same
    exception) with diagnostic printing and without it; the two runs decide
    each candidate alike and examine the same candidates, and only what is
    printed differs. *)
Theorem print_steps_does_not_interfere
  (maximum_arg minimum_arg saddle_arg : list Q) (n : Z) :
  construct_and_solve maximum_arg minimum_arg saddle_arg true n
  = construct_and_solve maximum_arg minimum_arg saddle_arg false n
  /\ forall loud quiet,
      __init__ maximum_arg minimum_arg saddle_arg true = inr loud ->
      __init__ maximum_arg minimum_arg saddle_arg false = inr quiet ->
      (forall c, accepts loud c = accepts quiet c)
      /\ outcome (solve loud n) = outcome (solve quiet n)
      /\ examined (solve loud n) = examined (solve quiet n)
      /\ length (stdout (solve loud n)) = 1%nat
      /\ stdout (solve quiet n) = [].
Proof.
  assert (Hruns : forall loud quiet,
             __init__ maximum_arg minimum_arg saddle_arg true = inr loud ->
             __init__ maximum_arg minimum_arg saddle_arg false = inr quiet ->
             (forall c, accepts loud c = accepts quiet c)
             /\ outcome (solve loud n) = outcome (solve quiet n)
             /\ examined (solve loud n) = examined (solve quiet n)
             /\ length (stdout (solve loud n)) = 1%nat
             /\ stdout (solve quiet n) = []).
  { intros loud quiet Hloud Hquiet.
    destruct (init_inv _ _ _ _ _ Hloud)
      as (M1 & m1 & s1 & p1 & fx1 & fy1 & g1 & fxx1 & d1).
    destruct (init_inv _ _ _ _ _ Hquiet)
      as (M2 & m2 & s2 & p2 & fx2 & fy2 & g2 & fxx2 & d2).
    rewrite M1 in M2. rewrite m1 in m2. rewrite s1 in s2.
    injection M2 as Hmx Hmy. injection m2 as Hnx Hny. injection s2 as Hsx Hsy.
    assert (Hfx : f_x loud = f_x quiet) by (now rewrite fx1, fx2, Hmx, Hny).
    assert (Hfy : f_y loud = f_y quiet) by (now rewrite fy1, fy2, Hmx, Hny).
    assert (Hmax : maximum loud = maximum quiet)
      by (unfold maximum; now rewrite Hmx, Hmy).
    assert (Hmin : minimum loud = minimum quiet)
      by (unfold minimum; now rewrite Hnx, Hny).
    assert (Hsad : saddle loud = saddle quiet)
      by (unfold saddle; now rewrite Hsx, Hsy).
    assert (Hfxx : f_xx loud = f_xx quiet) by (now rewrite fxx1, fxx2, Hfx, Hfy).
    assert (Hd : d_xy loud = d_xy quiet) by (now rewrite d1, d2, Hfx, Hfy).
    assert (Hg : general_form loud = general_form quiet)
      by (now rewrite g1, g2, Hfx, Hfy).
    split.
    - intros c. rewrite !accepts_eq. f_equal.
      unfold six_predicates_b, f_xx_value, d_xy_value.
      now rewrite Hmax, Hmin, Hsad, Hfxx, Hd.
    - rewrite !solve_eq. cbn [outcome examined stdout].
      rewrite (solve_loop_flag loud quiet) by assumption.
      unfold evaluate_derivative_at_stationary_points. rewrite p1, p2.
      repeat split; reflexivity. }
  split; [|exact Hruns].
  unfold construct_and_solve, bind.
  pose proof (init_flag maximum_arg minimum_arg saddle_arg) as Hflag.
  destruct (__init__ maximum_arg minimum_arg saddle_arg true) as [e1|loud];
    destruct (__init__ maximum_arg minimum_arg saddle_arg false) as [e2|quiet];
    try contradiction.
  - now subst.
  - now destruct (Hruns loud quiet eq_refl eq_refl) as (_ & Hout & _).
Qed.

Lemma print_steps_does_not_interfere_witness :
  construct_and_solve [25 # 1; 15 # 1] [-5 # 1; -12 # 1] [0; 0]%Q true 2
  = construct_and_solve [25 # 1; 15 # 1] [-5 # 1; -12 # 1] [0; 0]%Q false 2
  /\ construct_and_solve [25 # 1] [-5 # 1; -12 # 1] [0; 0]%Q true 2
     = construct_and_solve [25 # 1] [-5 # 1; -12 # 1] [0; 0]%Q false 2.
Proof.
  split.
  - exact (proj1 (print_steps_does_not_interfere
                    [25 # 1; 15 # 1] [-5 # 1; -12 # 1] [0; 0]%Q 2)).
  - exact (proj1 (print_steps_does_not_interfere
                    [25 # 1] [-5 # 1; -12 # 1] [0; 0]%Q 2)).
Defined.

(** ** Further properties *)





(** X3: for a calculator the constructor built, the third condition follows
    from the sixth: the discriminant is [f_xx * f_yy] (the mixed derivative
    vanishes), so where it is negative [f_xx] is not zero.  Acceptance is
    therefore decided by the five sign conditions alone. *)
Theorem saddle_test_redundant
  (maximum_arg minimum_arg saddle_arg : list Q) (flag : bool)
  (self : FunctionCalculator) (p : Q * Q) (a b : Z) :
  __init__ maximum_arg minimum_arg saddle_arg flag = inr self ->
  (d_xy_value self p a b < 0)%Q ->
  ~ (f_xx_value self p a b == 0)%Q.
Proof.
  intros Hinit Hd Hf. unfold d_xy_value in Hd. unfold f_xx_value in Hf.
  rewrite (d_xy_eval _ _ _ _ _ Hinit) in Hd.
  rewrite (f_xx_eval _ _ _ _ _ Hinit) in Hf.
  rewrite Hf, Qmult_0_l in Hd. exact (Qlt_irrefl 0 Hd).
Qed.

Lemma saddle_test_redundant_witness :
  exists self,
    solver = inr self
    /\ (d_xy_value self (saddle self) (-1) (-1) < 0)%Q
    /\ ~ (f_xx_value self (saddle self) (-1) (-1) == 0)%Q.
Proof.
  eexists. split; [reflexivity|].
  match goal with |- (d_xy_value ?s _ _ _ < _)%Q /\ _ => set (self := s) end.
  assert (Hd : (d_xy_value self (saddle self) (-1) (-1) < 0)%Q)
    by (vm_compute; reflexivity).
  split; [exact Hd|].
  exact (saddle_test_redundant [25 # 1; 15 # 1] [-5 # 1; -12 # 1] [0; 0]%Q
           false self (saddle self) (-1) (-1) eq_refl Hd).
Defined.

(** ** The candidates as a set *)

Lemma in_numbers (n z : Z) : 0 <= n -> (In z (numbers n) <-> - n <= z <= n).
Proof.
  intros Hn. rewrite (count_occ_In Z.eq_dec), count_numbers by assumption.
  destruct (Z.leb_spec (- n) z), (Z.leb_spec z n); cbn [andb]; lia.
Qed.

Lemma NoDup_numbers (n : Z) : 0 <= n -> NoDup (numbers n).
Proof.
  intros Hn. apply (NoDup_count_occ Z.eq_dec). intros z.
  rewrite count_numbers by assumption.
  destruct ((- n <=? z) && (z <=? n)); lia.
Qed.

Lemma NoDup_row (a : Z) (l : list Z) : NoDup l -> NoDup (map (fun b => (a, b)) l).
Proof.
  induction 1 as [|b l Hb Hl IH]; cbn [map]; constructor; [|exact IH].
  intros Hin. apply in_map_iff in Hin. destruct Hin as (b' & [= ->] & Hb').
  contradiction.
Qed.

Lemma NoDup_rows (l pool : list Z) :
  NoDup l -> NoDup pool ->
  NoDup (flat_map (fun a => map (fun b => (a, b)) pool) l).
Proof.
  intros Hl Hpool. induction Hl as [|a l Ha Hl IH]; cbn [flat_map].
  - constructor.
  - apply NoDup_app; [now apply NoDup_row | exact IH |].
    intros [a' b'] Hrow Hrest. apply in_map_iff in Hrow.
    destruct Hrow as (b & [= <- <-] & _).
    apply in_flat_map in Hrest. destruct Hrest as (a'' & Ha'' & Hin).
    apply in_map_iff in Hin. destruct Hin as (b'' & [= -> _] & _).
    contradiction.
Qed.

(** X4: for every bound [n], of either sign, [get_values] yields exactly the
    pairs of the square [-n, n] x [-n, n] (none when [n < 0]), each once. *)
Theorem get_values_square (n : Z) :
  (forall a b, In (a, b) (get_values n) <-> (- n <= a <= n /\ - n <= b <= n))
  /\ NoDup (get_values n).
Proof.
  unfold get_values. destruct (Z.ltb_spec n 0) as [Hn|Hn].
  - split; [|constructor]. intros a b. cbn [In]. lia.
  - split.
    + intros a b. unfold Py.product2. rewrite in_flat_map. split.
      * intros (a' & Ha' & Hin). apply in_map_iff in Hin.
        destruct Hin as (b' & [= -> ->] & Hb').
        apply in_numbers in Ha', Hb'; [lia | assumption | assumption].
      * intros [Ha Hb]. exists a. split; [now apply in_numbers|].
        apply in_map_iff. exists b. split; [reflexivity | now apply in_numbers].
    + apply NoDup_rows; now apply NoDup_numbers.
Qed.

(** ** Signs *)

Section Signs.

Local Open Scope Q_scope.

Lemma Qmul_neg_cases (x y : Q) :
  x * y < 0 <-> (x < 0 /\ 0 < y) \/ (0 < x /\ y < 0).
Proof.
  split.
  - intros H. destruct (Q_dec x 0) as [[Hx|Hx]|Hx], (Q_dec y 0) as [[Hy|Hy]|Hy];
      try (left; split; assumption); try (right; split; assumption); exfalso;
      first [nra | rewrite Hx in H; nra | rewrite Hy in H; nra].
  - intros [[Hx Hy]|[Hx Hy]]; nra.
Qed.

Lemma Qmul_pos_cases (x y : Q) :
  0 < x * y <-> (0 < x /\ 0 < y) \/ (x < 0 /\ y < 0).
Proof.
  split.
  - intros H. destruct (Q_dec x 0) as [[Hx|Hx]|Hx], (Q_dec y 0) as [[Hy|Hy]|Hy];
      try (left; split; assumption); try (right; split; assumption); exfalso;
      first [nra | rewrite Hx in H; nra | rewrite Hy in H; nra].
  - intros [[Hx Hy]|[Hx Hy]]; nra.
Qed.

Lemma Qpos_cancel (c z : Q) : 0 < c -> 0 < c * z -> 0 < z.
Proof. intros Hc H. apply Qmul_pos_cases in H. lra. Qed.

Lemma Qneg_cancel (c z : Q) : 0 < c -> c * z < 0 -> z < 0.
Proof. intros Hc H. apply Qmul_neg_cases in H. lra. Qed.

Lemma Qsquare_pos (x y : Q) : x * y < 0 -> 0 < x * x.
Proof. intros H. apply Qmul_neg_cases in H. apply Qmul_pos_cases. lra. Qed.

(** The sign rules behind the six conditions, for [f_xx = a * (2x - M)] and
    [d_xy = f_xx * (b * (2y - N))]. *)
Lemma six_signs (a b M K U N S T : Q) :
  (a * M < 0 /\ 0 < a * K /\ ~ a * S == 0
   /\ 0 < a * M * (b * U) /\ 0 < a * K * (b * N) /\ a * S * (b * T) < 0)
  <-> ((M * K < 0 /\ N * U < 0 /\ 0 < M * N * (S * T))
       /\ a * M < 0 /\ 0 < b * N).
Proof.
  split.
  - intros (H1 & H2 & _ & H4 & H5 & H6).
    assert (HbU : b * U < 0) by (apply Qmul_pos_cases in H4; lra).
    assert (HbN : 0 < b * N) by (apply Qmul_pos_cases in H5; lra).
    assert (Ha : 0 < a * a) by (apply (Qsquare_pos a M); exact H1).
    assert (Hb : 0 < b * b) by (apply (Qsquare_pos b U); exact HbU).
    repeat split; try assumption.
    + apply (Qneg_cancel (a * a)); [exact Ha|].
      setoid_replace (a * a * (M * K)) with (a * M * (a * K)) by ring.
      apply Qmul_neg_cases. lra.
    + apply (Qneg_cancel (b * b)); [exact Hb|].
      setoid_replace (b * b * (N * U)) with (b * N * (b * U)) by ring.
      apply Qmul_neg_cases. lra.
    + apply (Qpos_cancel (a * a * (b * b))); [apply Qmul_pos_cases; lra|].
      setoid_replace (a * a * (b * b) * (M * N * (S * T)))
        with (a * M * (b * N) * (a * S * (b * T))) by ring.
      assert (a * M * (b * N) < 0) by (apply Qmul_neg_cases; lra).
      apply Qmul_pos_cases. lra.
  - intros ((H1 & H2 & H3) & H4 & H5).
    assert (HM : 0 < M * M) by (apply (Qsquare_pos M K); exact H1).
    assert (HN : 0 < N * N) by (apply (Qsquare_pos N U); exact H2).
    assert (HaK : 0 < a * K).
    { apply (Qpos_cancel (M * M)); [exact HM|].
      setoid_replace (M * M * (a * K)) with (a * M * (M * K)) by ring.
      apply Qmul_pos_cases. lra. }
    assert (HbU : b * U < 0).
    { apply (Qneg_cancel (N * N)); [exact HN|].
      setoid_replace (N * N * (b * U)) with (b * N * (N * U)) by ring.
      apply Qmul_neg_cases. lra. }
    assert (H6 : a * S * (b * T) < 0).
    { apply (Qneg_cancel (M * M * (N * N))); [apply Qmul_pos_cases; lra|].
      setoid_replace (M * M * (N * N) * (a * S * (b * T)))
        with (a * M * (b * N) * (M * N * (S * T))) by ring.
      assert (a * M * (b * N) < 0) by (apply Qmul_neg_cases; lra).
      apply Qmul_neg_cases. lra. }
    repeat split; try assumption.
    + intros E. apply Qmul_neg_cases in H6. lra.
    + apply Qmul_pos_cases. lra.
    + apply Qmul_pos_cases. lra.
Qed.

Lemma inject_Z_pos (p : positive) : 0 < inject_Z (Z.pos p).
Proof. unfold Qlt, inject_Z. cbn. lia. Qed.

Lemma inject_Z_neg (p : positive) : inject_Z (Z.neg p) < 0.
Proof. unfold Qlt, inject_Z. cbn. lia. Qed.

Lemma inject_sgn_neg (a : Z) (q : Q) :
  inject_Z a * q < 0 <-> inject_Z (Z.sgn a) * q < 0.
Proof.
  destruct a as [|p|p]; cbn [Z.sgn]; [reflexivity| |].
  - pose proof (inject_Z_pos p). pose proof (inject_Z_pos 1).
    rewrite !Qmul_neg_cases. lra.
  - pose proof (inject_Z_neg p). pose proof (inject_Z_neg 1).
    rewrite !Qmul_neg_cases. lra.
Qed.

Lemma inject_sgn_pos (a : Z) (q : Q) :
  0 < inject_Z a * q <-> 0 < inject_Z (Z.sgn a) * q.
Proof.
  destruct a as [|p|p]; cbn [Z.sgn]; [reflexivity| |].
  - pose proof (inject_Z_pos p). pose proof (inject_Z_pos 1).
    rewrite !Qmul_pos_cases. lra.
  - pose proof (inject_Z_neg p). pose proof (inject_Z_neg 1).
    rewrite !Qmul_pos_cases. lra.
Qed.



End Signs.

(** ** The first accepted candidate *)

Lemma numbers_head3 (n : Z) :
  1 <= n -> exists tl, numbers n = 0 :: -1 :: 1 :: tl.
Proof.
  intros Hn. rewrite numbers_closed by lia.
  destruct (Z.to_nat n) as [|[|m]] eqn:E; [lia | |].
  - replace n with 1 by lia. exists []. reflexivity.
  - cbn [seq flat_map app]. eexists. reflexivity.
Qed.

(** The outcome of the loop is decided by the first accepted candidate. *)
Lemma solve_loop_find (self : FunctionCalculator) (values : list (Z * Z)) :
  snd (solve_loop self (snd (evaluate_derivative_at_stationary_points self))
                  values)
  = match find (fun c => six_predicates_b self (fst c) (snd c)) values with
    | Some (a, b) =>
        inr (full_func (evalf (general_form self)
                              [(SA, inject_Z a); (SB, inject_Z b)]))
    | None => inr not_found
    end.
Proof.
  induction values as [|[a b] rest IH]; [reflexivity|].
  rewrite solve_loop_cons. cbn [find fst snd].
  destruct (six_predicates_b self a b); [reflexivity | exact IH].
Qed.

Section FindSign.

(** A test on pairs that looks at the signs of the two coordinates only. *)
Variable P : Z * Z -> bool.
Hypothesis Hsgn : forall a b, P (a, b) = P (Z.sgn a, Z.sgn b).

Lemma find_app_first (l1 l2 : list (Z * Z)) :
  find P (l1 ++ l2)
  = match find P l1 with Some c => Some c | None => find P l2 end.
Proof.
  induction l1 as [|c l1 IH]; cbn [app find]; [reflexivity|].
  destruct (P c); [reflexivity | exact IH].
Qed.

Lemma find_all_false (l : list (Z * Z)) :
  (forall c, In c l -> P c = false) -> find P l = None.
Proof.
  induction l as [|c l IH]; intros H; cbn [find]; [reflexivity|].
  rewrite (H c (or_introl eq_refl)). apply IH. intros c' Hc'. apply H. now right.
Qed.

Lemma sgn_cases (a : Z) : Z.sgn a = 0 \/ Z.sgn a = -1 \/ Z.sgn a = 1.
Proof. destruct a; cbn; auto. Qed.

(** When none of the nine pairs of signs passes, no pair does. *)
Lemma signs_all_false (a b : Z) :
  find P (Py.product2 [0; -1; 1]) = None -> P (a, b) = false.
Proof.
  intros H. rewrite Hsgn. apply (find_none _ _ H). cbn.
  destruct (sgn_cases a) as [-> | [-> | ->]], (sgn_cases b) as [-> | [-> | ->]];
    tauto.
Qed.

Lemma find_row (a : Z) (tl : list Z) :
  find P (map (fun b => (a, b)) (0 :: -1 :: 1 :: tl))
  = find P (map (fun b => (a, b)) [0; -1; 1]).
Proof.
  cbn [map find].
  destruct (P (a, 0)) eqn:E0; [reflexivity|].
  destruct (P (a, -1)) eqn:E1; [reflexivity|].
  destruct (P (a, 1)) eqn:E2; [reflexivity|].
  apply find_all_false. intros c Hc. apply in_map_iff in Hc.
  destruct Hc as (b & <- & _). rewrite Hsgn.
  rewrite Hsgn in E0, E1, E2. cbn [Z.sgn] in E0, E1, E2.
  destruct (sgn_cases b) as [-> | [-> | ->]]; assumption.
Qed.

(** In a number sequence that starts 0, -1, 1 the first pair that passes is
    found among the first three numbers. *)
Lemma find_product2 (tl : list Z) :
  find P (Py.product2 (0 :: -1 :: 1 :: tl)) = find P (Py.product2 [0; -1; 1]).
Proof.
  unfold Py.product2. cbn [flat_map]. rewrite !find_app_first.
  rewrite (find_row 0 tl), (find_row (-1) tl), (find_row 1 tl).
  destruct (find P (map (fun b => (0, b)) [0; -1; 1])) eqn:R0; [reflexivity|].
  destruct (find P (map (fun b => (-1, b)) [0; -1; 1])) eqn:R1; [reflexivity|].
  destruct (find P (map (fun b => (1, b)) [0; -1; 1])) eqn:R2; [reflexivity|].
  cbn [find]. apply find_all_false. intros [a b] _. apply signs_all_false.
  unfold Py.product2. cbn [flat_map]. rewrite !find_app_first, R0, R1, R2.
  reflexivity.
Qed.

End FindSign.

(** ** Acceptance in closed form *)

Section ClosedForm.

Variables (maximum_arg minimum_arg saddle_arg : list Q) (flag : bool).
Variable self : FunctionCalculator.
Hypothesis Hinit : __init__ maximum_arg minimum_arg saddle_arg flag = inr self.

Local Open Scope Q_scope.

Lemma f_xx_value_eq (p : Q * Q) (a b : Z) :
  f_xx_value self p a b == inject_Z a * (2 * fst p - max_x self).
Proof.
  unfold f_xx_value. rewrite (f_xx_eval _ _ _ _ _ Hinit). cbn [env]. ring.
Qed.

Lemma d_xy_value_eq (p : Q * Q) (a b : Z) :
  d_xy_value self p a b
  == inject_Z a * (2 * fst p - max_x self)
     * (inject_Z b * (2 * snd p - min_y self)).
Proof.
  unfold d_xy_value. rewrite (d_xy_eval _ _ _ _ _ Hinit). cbn [env]. ring.
Qed.

Lemma six_predicates_closed (a b : Z) :
  six_predicates self a b
  <-> solvable self
      /\ inject_Z a * max_x self < 0 /\ 0 < inject_Z b * min_y self.
Proof.
  unfold six_predicates, solvable.
  rewrite !f_xx_value_eq, !d_xy_value_eq. unfold maximum, minimum, saddle.
  cbn [fst snd].
  setoid_replace (2 * max_x self - max_x self) with (max_x self) by ring.
  setoid_replace (2 * min_y self - min_y self) with (min_y self) by ring.
  apply six_signs.
Qed.

Lemma six_predicates_b_sgn (a b : Z) :
  six_predicates_b self a b = six_predicates_b self (Z.sgn a) (Z.sgn b).
Proof.
  apply eq_true_iff_eq.
  rewrite !six_predicates_b_iff, !six_predicates_closed.
  rewrite (inject_sgn_neg a), (inject_sgn_pos b). reflexivity.
Qed.

Lemma outcome_bound (n : Z) :
  (1 <= n)%Z -> outcome (solve self n) = outcome (solve self 1).
Proof.
  intros Hn. rewrite !solve_eq. cbn [outcome]. rewrite !solve_loop_find.
  destruct (numbers_head3 n Hn) as (tl & Hnum).
  unfold get_values at 1. destruct (Z.ltb_spec n 0); [lia|]. rewrite Hnum.
  rewrite find_product2; [reflexivity|].
  intros a b. cbn [fst snd]. apply six_predicates_b_sgn.
Qed.

Lemma six_true (a b : Z) :
  solvable self ->
  inject_Z a * max_x self < 0 -> 0 < inject_Z b * min_y self ->
  six_predicates_b self a b = true.
Proof.
  intros. apply six_predicates_b_iff. apply six_predicates_closed. tauto.
Qed.

Lemma six_false (a b : Z) :
  ~ (solvable self
     /\ inject_Z a * max_x self < 0 /\ 0 < inject_Z b * min_y self) ->
  six_predicates_b self a b = false.
Proof.
  intros H. destruct (six_predicates_b self a b) eqn:E; [|reflexivity].
  apply six_predicates_b_iff in E. apply six_predicates_closed in E.
  contradiction.
Qed.



Lemma unsolvable_all_examined (n : Z) :
  ~ solvable self ->
  solve_loop self (snd (evaluate_derivative_at_stationary_points self))
             (get_values n)
  = (get_values n, inr not_found).
Proof.
  intros Hs. apply solve_loop_none. intros c _. apply six_false. tauto.
Qed.

End ClosedForm.

(** X5: for a calculator the constructor built, a candidate [(a, b)] passes
    the six conditions exactly when the three conditions [solvable] on the
    points hold and [a * max_x < 0] and [b * min_y > 0]; so the loop's test
    looks at the signs of [a] and [b] only. *)
Theorem acceptance_closed_form
  (maximum_arg minimum_arg saddle_arg : list Q) (flag : bool)
  (self : FunctionCalculator) (a b : Z) :
  __init__ maximum_arg minimum_arg saddle_arg flag = inr self ->
  (six_predicates self a b
   <-> solvable self
       /\ (inject_Z a * max_x self < 0)%Q /\ (0 < inject_Z b * min_y self)%Q)
  /\ accepts self (a, b) = accepts self (Z.sgn a, Z.sgn b).
Proof.
  intros Hinit. split.
  - exact (six_predicates_closed _ _ _ _ _ Hinit a b).
  - rewrite !accepts_eq. cbn [fst snd]. f_equal.
    exact (six_predicates_b_sgn _ _ _ _ _ Hinit a b).
Qed.

Lemma acceptance_closed_form_witness :
  exists self,
    solver = inr self
    /\ solvable self
    /\ accepts self (-3, -7) = accepts self (-1, -1).
Proof.
  eexists. split; [reflexivity|].
  match goal with |- solvable ?s /\ _ => set (self := s) end.
  destruct (acceptance_closed_form
              [25 # 1; 15 # 1] [-5 # 1; -12 # 1] [0; 0]%Q false self (-3) (-7)
              eq_refl) as (Hiff & Hsgn).
  split; [|exact Hsgn].
  assert (Hsix : six_predicates self (-3) (-7)).
  { apply six_predicates_b_iff. vm_compute. reflexivity. }
  exact (proj1 (proj1 Hiff Hsix)).
Defined.

(** X6: for a calculator the constructor built, every bound [n >= 1] gives
    the result of the bound 1: a larger bound finds no other solution. *)
Theorem bound_does_not_matter
  (maximum_arg minimum_arg saddle_arg : list Q) (flag : bool)
  (self : FunctionCalculator) (n : Z) :
  __init__ maximum_arg minimum_arg saddle_arg flag = inr self ->
  1 <= n ->
  outcome (solve self n) = outcome (solve self 1).
Proof. intros Hinit. exact (outcome_bound _ _ _ _ _ Hinit n). Qed.

Lemma bound_does_not_matter_witness :
  exists self,
    solver = inr self /\ 1 <= 1000
    /\ outcome (solve self 1000) = outcome (solve self 1).
Proof.
  eexists. split; [reflexivity|].
  assert (H1000 : 1 <= 1000) by lia.
  split; [exact H1000|].
  exact (bound_does_not_matter
           [25 # 1; 15 # 1] [-5 # 1; -12 # 1] [0; 0]%Q false _ 1000
           eq_refl H1000).
Defined.



(** X8: when the points of a calculator the constructor built are not
    [solvable], [solve] examines every one of the [(2n+1)^2] candidates
    before it returns the message. *)
Theorem unsolvable_examines_all
  (maximum_arg minimum_arg saddle_arg : list Q) (flag : bool)
  (self : FunctionCalculator) (n : Z) :
  __init__ maximum_arg minimum_arg saddle_arg flag = inr self ->
  ~ solvable self ->
  0 <= n ->
  examined (solve self n) = get_values n
  /\ Z.of_nat (length (examined (solve self n))) = (2 * n + 1) ^ 2
  /\ outcome (solve self n) = inr (message "Solution could not be found").
Proof.
  intros Hinit Hs Hn. rewrite solve_eq. cbn [examined outcome].
  rewrite (unsolvable_all_examined _ _ _ _ _ Hinit n Hs). cbn [fst snd].
  split; [reflexivity|]. split; [now apply length_get_values | reflexivity].
Qed.

Lemma unsolvable_examines_all_witness :
  exists self,
    __init__ [25 # 1; 15 # 1] [-5 # 1; 12 # 1] [0; 0]%Q false = inr self
    /\ ~ solvable self /\ 0 <= 1000
    /\ Z.of_nat (length (examined (solve self 1000))) = 4004001.
Proof.
  eexists. split; [reflexivity|].
  match goal with |- ~ solvable ?s /\ _ => set (self := s) end.
  assert (Hs : ~ solvable self).
  { intros (_ & H & _). vm_compute in H. discriminate. }
  assert (H1000 : 0 <= 1000) by lia.
  split; [exact Hs|]. split; [exact H1000|].
  exact (proj1 (proj2 (unsolvable_examines_all
                         [25 # 1; 15 # 1] [-5 # 1; 12 # 1] [0; 0]%Q false
                         self 1000 eq_refl Hs H1000))).
Defined.

(** ** The returned function *)

Lemma Symbol_eqb_eq (s t : Symbol) : Symbol_eqb s t = true -> s = t.
Proof. destruct s, t; cbn; congruence. Qed.

Lemma mentions_subs (d : Subs) (s : Symbol) (e : Expr) :
  lookup d s <> None -> mentions s (subs d e) = false.
Proof.
  intros Hs.
  induction e as [q|t|a IHa b IHb|a IHa b IHb|a IHa b IHb|a IHa k];
    cbn [subs mentions]; try (now rewrite IHa, ?IHb).
  - reflexivity.
  - destruct (lookup d t) eqn:E; cbn [mentions]; [reflexivity|].
    destruct (Symbol_eqb t s) eqn:Ets; [|reflexivity].
    apply Symbol_eqb_eq in Ets. congruence.
Qed.

Lemma mentions_evalf (d : Subs) (s : Symbol) (e : Expr) :
  lookup d s <> None -> mentions s (evalf e d) = false.
Proof.
  intros Hs. unfold evalf. destruct (value (subs d e)); [reflexivity|].
  now apply mentions_subs.
Qed.

(** X9: a function returned by [solve] has the only variables [x] and [y]
    (neither [A] nor [B] occurs in it), and it is the result of
    [general_form.evalf] with [A], [B] replaced by a candidate of the
    enumeration that passes the six conditions. *)
Theorem solution_in_x_and_y (self : FunctionCalculator) (n : Z) (e : Expr) :
  outcome (solve self n) = inr (full_func e) ->
  mentions SA e = false /\ mentions SB e = false
  /\ exists a b,
      In (a, b) (get_values n) /\ six_predicates self a b
      /\ e = evalf (general_form self) [(SA, inject_Z a); (SB, inject_Z b)].
Proof.
  rewrite solve_eq. cbn [outcome].
  destruct (solve_loop_cases self (get_values n))
    as [(a & b & Hin & Hacc & ->) | (_ & ->)]; [|discriminate].
  intros [= <-]. split; [|split].
  - apply mentions_evalf. discriminate.
  - apply mentions_evalf. discriminate.
  - exists a, b. split; [exact Hin|]. split; [now apply six_predicates_b_iff|].
    reflexivity.
Qed.

Lemma solution_in_x_and_y_witness :
  exists self e,
    solver = inr self
    /\ outcome (solve self 2) = inr (full_func e)
    /\ mentions SA e = false /\ mentions SB e = false.
Proof.
  eexists. eexists. split; [reflexivity|].
  match goal with |- outcome (solve ?s 2) = _ /\ _ => set (self := s) end.
  assert (Hout : outcome (solve self 2)
                 = inr (full_func (evalf (general_form self)
                                         [(SA, -1 # 1); (SB, -1 # 1)])))
    by (vm_compute; reflexivity).
  split; [exact Hout|].
  destruct (solution_in_x_and_y self 2 _ Hout) as (HA & HB & _).
  split; [exact HA | exact HB].
Defined.

Section Gradient.

Variables (maximum_arg minimum_arg saddle_arg : list Q) (flag : bool).
Variable self : FunctionCalculator.
Hypothesis Hinit : __init__ maximum_arg minimum_arg saddle_arg flag = inr self.

Local Open Scope Q_scope.

(** The partial derivatives of [general_form], the expression the
    constructor stores (built by [integrate], without [evalf]). *)
Lemma gradient_x (rho : Symbol -> Q) :
  eval rho (diff (general_form self) Sx)
  == rho SA * rho Sx * (rho Sx - max_x self).
Proof.
  destruct (init_inv _ _ _ _ _ Hinit) as (_ & _ & _ & _ & Hx & Hy & -> & _).
  rewrite Hx, Hy.
  cbn [get_general_form get_first_order_partial_derivatives fst snd
       integrate integrate_terms as_poly padd pscale pmul map Symbol_eqb
       diff eval Qpow Pos.of_succ_nat Pos.succ Z.of_nat].
  unfold inject_Z. field.
Qed.

Lemma gradient_y (rho : Symbol -> Q) :
  eval rho (diff (general_form self) Sy)
  == rho SB * rho Sy * (rho Sy - min_y self).
Proof.
  destruct (init_inv _ _ _ _ _ Hinit) as (_ & _ & _ & _ & Hx & Hy & -> & _).
  rewrite Hx, Hy.
  cbn [get_general_form get_first_order_partial_derivatives fst snd
       integrate integrate_terms as_poly padd pscale pmul map Symbol_eqb
       diff eval Qpow Pos.of_succ_nat Pos.succ Z.of_nat].
  unfold inject_Z. field.
Qed.

Lemma Qmult3_zero (u v w : Q) :
  ~ u == 0 -> ~ w == 0 -> (u * v * w == 0 <-> v == 0).
Proof.
  intros Hu Hw. split.
  - intros H. apply Qmult_integral in H. destruct H as [H|H]; [|contradiction].
    apply Qmult_integral in H. destruct H as [H|H]; [contradiction | exact H].
  - intros H. rewrite H. ring.
Qed.

Lemma stationary_at_points (a b : Z) :
  six_predicates self a b ->
  (forall py,
      eval (env (max_x self) py (inject_Z a) (inject_Z b))
           (diff (general_form self) Sx) == 0)
  /\ (forall px,
         eval (env px (min_y self) (inject_Z a) (inject_Z b))
              (diff (general_form self) Sy) == 0)
  /\ (eval (env (max_x self) (max_y self) (inject_Z a) (inject_Z b))
            (diff (general_form self) Sy) == 0
       <-> max_y self == 0)
  /\ (eval (env (min_x self) (min_y self) (inject_Z a) (inject_Z b))
            (diff (general_form self) Sx) == 0
       <-> min_x self == 0).
Proof.
  intros Hsix. apply (six_predicates_closed _ _ _ _ _ Hinit) in Hsix.
  destruct Hsix as ((HMK & HNU & _) & HaM & HbN).
  apply Qmul_neg_cases in HaM. apply Qmul_pos_cases in HbN.
  apply Qmul_neg_cases in HMK, HNU.
  split; [|split; [|split]].
  - intros py. rewrite gradient_x. cbn [env]. ring.
  - intros px. rewrite gradient_y. cbn [env]. ring.
  - rewrite gradient_y. cbn [env]. apply Qmult3_zero; lra.
  - rewrite gradient_x. cbn [env]. apply Qmult3_zero; lra.
Qed.

End Gradient.

(** X10: for a calculator the constructor built and a candidate [(a, b)]
    that passes the six conditions, take [general_form], the exact
    expression the constructor stores (the one [solve] passes to [evalf]),
    at [A = a], [B = b].  Its x-derivative is zero wherever [x = max_x] and
    its y-derivative wherever [y = min_y]; but its y-derivative at the
    prescribed maximum is zero only when [max_y = 0], and its x-derivative at
    the prescribed minimum only when [min_x = 0]: otherwise these points are
    not stationary points of it. *)
Theorem general_form_stationary_points
  (maximum_arg minimum_arg saddle_arg : list Q) (flag : bool)
  (self : FunctionCalculator) (a b : Z) :
  __init__ maximum_arg minimum_arg saddle_arg flag = inr self ->
  six_predicates self a b ->
  (forall py,
      eval (env (max_x self) py (inject_Z a) (inject_Z b))
           (diff (general_form self) Sx) == 0)%Q
  /\ (forall px,
         eval (env px (min_y self) (inject_Z a) (inject_Z b))
              (diff (general_form self) Sy) == 0)%Q
  /\ ((eval (env (max_x self) (max_y self) (inject_Z a) (inject_Z b))
             (diff (general_form self) Sy) == 0)%Q
       <-> (max_y self == 0)%Q)
  /\ ((eval (env (min_x self) (min_y self) (inject_Z a) (inject_Z b))
             (diff (general_form self) Sx) == 0)%Q
       <-> (min_x self == 0)%Q).
Proof. intros Hinit. exact (stationary_at_points _ _ _ _ _ Hinit a b). Qed.

Lemma general_form_stationary_points_witness :
  exists self,
    solver = inr self
    /\ six_predicates self (-1) (-1)
    /\ ~ (eval (env (25 # 1) (15 # 1) (inject_Z (-1)) (inject_Z (-1)))
               (diff (general_form self) Sy)
          == 0)%Q.
Proof.
  eexists. split; [reflexivity|].
  match goal with |- six_predicates ?s _ _ /\ _ => set (self := s) end.
  assert (Hsix : six_predicates self (-1) (-1)).
  { apply six_predicates_b_iff. vm_compute. reflexivity. }
  split; [exact Hsix|].
  destruct (general_form_stationary_points
              [25 # 1; 15 # 1] [-5 # 1; -12 # 1] [0; 0]%Q false self (-1) (-1)
              eq_refl Hsix) as (_ & _ & Hmax & _).
  intros Hzero. apply Hmax in Hzero. vm_compute in Hzero. discriminate.
Defined.

(** ** The evaluated conditions and the cost of a successful search *)

Section Conditions.

Variables (maximum_arg minimum_arg saddle_arg : list Q) (flag : bool).
Variable self : FunctionCalculator.
Hypothesis Hinit : __init__ maximum_arg minimum_arg saddle_arg flag = inr self.

Local Open Scope Q_scope.

(** The values of the evaluated expressions, before the rounding that
    [evalf] here leaves out; only their signs are used below. *)
Lemma evaluated_f_xx (p : Q * Q) (rho : Symbol -> Q) :
  eval rho (evalf (f_xx self) [(Sx, fst p); (Sy, snd p)])
  == rho SA * (2 * fst p - max_x self).
Proof.
  rewrite eval_evalf, (f_xx_eval _ _ _ _ _ Hinit).
  unfold override. cbn [lookup Symbol_eqb]. ring.
Qed.

Lemma evaluated_d_xy (p : Q * Q) (rho : Symbol -> Q) :
  eval rho (evalf (d_xy self) [(Sx, fst p); (Sy, snd p)])
  == rho SA * (2 * fst p - max_x self) * (rho SB * (2 * snd p - min_y self)).
Proof.
  rewrite eval_evalf, (d_xy_eval _ _ _ _ _ Hinit).
  unfold override. cbn [lookup Symbol_eqb]. ring.
Qed.

Lemma evaluated_conditions (rho : Symbol -> Q) :
  let ev := snd (evaluate_derivative_at_stationary_points self) in
  eval rho (f_xx_at_max ev) == rho SA * max_x self
  /\ eval rho (f_xx_at_min ev) == rho SA * (2 * min_x self - max_x self)
  /\ eval rho (f_xx_at_saddle ev) == rho SA * (2 * saddle_x self - max_x self)
  /\ eval rho (d_at_max ev)
     == rho SA * max_x self * (rho SB * (2 * max_y self - min_y self))
  /\ eval rho (d_at_min ev)
     == rho SA * (2 * min_x self - max_x self) * (rho SB * min_y self)
  /\ eval rho (d_at_saddle ev)
     == rho SA * (2 * saddle_x self - max_x self)
        * (rho SB * (2 * saddle_y self - min_y self)).
Proof.
  unfold evaluate_derivative_at_stationary_points.
  cbn [snd f_xx_at_max f_xx_at_min f_xx_at_saddle d_at_max d_at_min d_at_saddle].
  repeat apply conj.
  - rewrite (evaluated_f_xx (max_x self, max_y self)). cbn [fst snd]. ring.
  - exact (evaluated_f_xx (min_x self, min_y self) rho).
  - exact (evaluated_f_xx (saddle_x self, saddle_y self) rho).
  - rewrite (evaluated_d_xy (max_x self, max_y self)). cbn [fst snd]. ring.
  - rewrite (evaluated_d_xy (min_x self, min_y self)). cbn [fst snd]. ring.
  - exact (evaluated_d_xy (saddle_x self, saddle_y self) rho).
Qed.

(** A solvable search returns within the first three rows. *)
Lemma solvable_examined (n : Z) :
  (1 <= n)%Z -> solvable self ->
  (length (fst (solve_loop self
                  (snd (evaluate_derivative_at_stationary_points self))
                  (get_values n)))
   <= 2 * length (numbers n) + 3)%nat.
Proof.
  intros Hn Hs.
  destruct (numbers_head3 n Hn) as (tl & Hnum).
  assert (Hval : get_values n = Py.product2 (numbers n)).
  { unfold get_values. destruct (Z.ltb_spec n 0); [lia | reflexivity]. }
  assert (Hlen := length_numbers n ltac:(lia)).
  assert (Hfound : exists r c a b,
             (r <= 2)%nat /\ (c <= 2)%nat
             /\ nth r (numbers n) 0%Z = a /\ nth c (numbers n) 0%Z = b
             /\ six_predicates_b self a b = true).
  { pose proof Hs as (H1 & H2 & _). apply Qmul_neg_cases in H1, H2.
    rewrite Hnum.
    destruct (Q_dec (max_x self) 0) as [[HM|HM]|HM]; [| |lra];
      destruct (Q_dec (min_y self) 0) as [[HN|HN]|HN]; try lra.
    - exists 2%nat, 1%nat, 1%Z, (-1)%Z. repeat split; try lia.
      apply (six_true _ _ _ _ _ Hinit); [exact Hs | |]; unfold inject_Z; lra.
    - exists 2%nat, 2%nat, 1%Z, 1%Z. repeat split; try lia.
      apply (six_true _ _ _ _ _ Hinit); [exact Hs | |]; unfold inject_Z; lra.
    - exists 1%nat, 1%nat, (-1)%Z, (-1)%Z. repeat split; try lia.
      apply (six_true _ _ _ _ _ Hinit); [exact Hs | |]; unfold inject_Z; lra.
    - exists 1%nat, 2%nat, (-1)%Z, 1%Z. repeat split; try lia.
      apply (six_true _ _ _ _ _ Hinit); [exact Hs | |]; unfold inject_Z; lra. }
  destruct Hfound as (r & c & a & b & Hr & Hc & Ha & Hb & Hacc).
  assert (Hi : nth_error (get_values n) (r * length (numbers n) + c)
               = Some (a, b)).
  { rewrite Hval, (nth_error_product2 0%Z) by lia. now rewrite Ha, Hb. }
  destruct (first_accepted self _ _ (a, b) Hi Hacc)
    as (k & a' & b' & Hle & Hk & Hk_acc & Hrej).
  rewrite (solve_loop_first self _ k a' b' Hk Hk_acc Hrej). cbn [fst].
  rewrite length_firstn. nia.
Qed.

End Conditions.

Lemma Qsgn_comp (p q : Q) : (p == q)%Q -> Qsgn p = Qsgn q.
Proof.
  destruct p as [pn pd], q as [qn qd]. unfold Qeq, Qsgn. cbn [Qnum Qden].
  intros H. destruct pn, qn; cbn in H |- *; try discriminate; reflexivity.
Qed.

(** X11: for a calculator the constructor built, the six expressions
    [evaluate_derivative_at_stationary_points] returns (the conditions it
    prints) contain neither [x] nor [y], and for all values of [A] and [B]
    they have the signs of [A * max_x], [A * (2 min_x - max_x)],
    [A * (2 saddle_x - max_x)] and of the products of these with
    [B * (2 max_y - min_y)], [B * min_y], [B * (2 saddle_y - min_y)]. *)
Theorem evaluated_conditions_in_A_and_B
  (maximum_arg minimum_arg saddle_arg : list Q) (flag : bool)
  (self : FunctionCalculator) :
  __init__ maximum_arg minimum_arg saddle_arg flag = inr self ->
  let ev := snd (evaluate_derivative_at_stationary_points self) in
  Forall (fun e => mentions Sx e = false /\ mentions Sy e = false)
         [f_xx_at_max ev; f_xx_at_min ev; f_xx_at_saddle ev;
          d_at_max ev; d_at_min ev; d_at_saddle ev]
  /\ forall rho : Symbol -> Q,
      Qsgn (eval rho (f_xx_at_max ev)) = Qsgn (rho SA * max_x self)
      /\ Qsgn (eval rho (f_xx_at_min ev))
         = Qsgn (rho SA * (2 * min_x self - max_x self))
      /\ Qsgn (eval rho (f_xx_at_saddle ev))
         = Qsgn (rho SA * (2 * saddle_x self - max_x self))
      /\ Qsgn (eval rho (d_at_max ev))
         = Qsgn (rho SA * max_x self
                 * (rho SB * (2 * max_y self - min_y self)))
      /\ Qsgn (eval rho (d_at_min ev))
         = Qsgn (rho SA * (2 * min_x self - max_x self)
                 * (rho SB * min_y self))
      /\ Qsgn (eval rho (d_at_saddle ev))
         = Qsgn (rho SA * (2 * saddle_x self - max_x self)
                 * (rho SB * (2 * saddle_y self - min_y self))).
Proof.
  intros Hinit ev. split.
  - unfold ev, evaluate_derivative_at_stationary_points.
    cbn [snd f_xx_at_max f_xx_at_min f_xx_at_saddle
         d_at_max d_at_min d_at_saddle].
    repeat constructor; apply mentions_evalf; discriminate.
  - intros rho.
    destruct (evaluated_conditions _ _ _ _ _ Hinit rho)
      as (H1 & H2 & H3 & H4 & H5 & H6).
    repeat apply conj; apply Qsgn_comp; assumption.
Qed.

Lemma evaluated_conditions_in_A_and_B_witness :
  exists self,
    solver = inr self
    /\ Qsgn (eval (env 7 9 (-1) (-1))
                  (d_at_saddle
                     (snd (evaluate_derivative_at_stationary_points self))))
       = -1.
Proof.
  eexists. split; [reflexivity|].
  match goal with
  | |- Qsgn (eval _ (d_at_saddle (snd (_ ?s)))) = _ => set (self := s)
  end.
  destruct (evaluated_conditions_in_A_and_B
              [25 # 1; 15 # 1] [-5 # 1; -12 # 1] [0; 0]%Q false self eq_refl)
    as (_ & Hval).
  destruct (Hval (env 7 9 (-1) (-1))) as (_ & _ & _ & _ & _ & ->).
  vm_compute. reflexivity.
Defined.

(** X12: when the points of a calculator the constructor built are
    [solvable] and the bound is [n >= 1], [solve] returns after examining at
    most [4n + 5] candidates: the accepted candidate lies in the first three
    rows of the enumeration. *)
Theorem solvable_examines_few
  (maximum_arg minimum_arg saddle_arg : list Q) (flag : bool)
  (self : FunctionCalculator) (n : Z) :
  __init__ maximum_arg minimum_arg saddle_arg flag = inr self ->
  solvable self ->
  1 <= n ->
  Z.of_nat (length (examined (solve self n))) <= 4 * n + 5.
Proof.
  intros Hinit Hs Hn. rewrite solve_eq. cbn [examined].
  pose proof (solvable_examined _ _ _ _ _ Hinit n Hn Hs) as H.
  pose proof (length_numbers n ltac:(lia)). lia.
Qed.

Lemma solvable_examines_few_witness :
  exists self,
    solver = inr self /\ solvable self /\ 1 <= 1000
    /\ Z.of_nat (length (examined (solve self 1000))) <= 4005.
Proof.
  eexists. split; [reflexivity|].
  match goal with |- solvable ?s /\ _ => set (self := s) end.
  assert (Hs : solvable self) by (repeat split; vm_compute; reflexivity).
  assert (H1000 : 1 <= 1000) by lia.
  split; [exact Hs|]. split; [exact H1000|].
  exact (solvable_examines_few
           [25 # 1; 15 # 1] [-5 # 1; -12 # 1] [0; 0]%Q false self 1000
           eq_refl Hs H1000).
Defined.
